(** * Retrieval and MMR re-ranking: a shallow embedding of
      [src/retrieval/retriever.py] ([HybridRetriever]).

    Python floats are modelled as real numbers ([R]): products, sums,
    quotients and square roots are exact, and there is neither NaN nor
    infinity; the theorems about selection are stated against the scores
    the code computes, and [Binary64] evaluates the similarity and the
    score on the program's floats where rounding decides.  Python exceptions are modelled by the [Raise] constructor of
    [result]; Python dictionaries used as documents are records, the
    free-form [metadata] dictionary is a finite map. *)

From Stdlib Require Import Reals Lra ZArith Sorted.
From Stdlib Require PrimFloat.
From stdpp Require Import gmap strings list.

Open Scope R_scope.

(** ** Exceptions and the error monad *)

Inductive exn : Type :=
  | ValueError (msg : string)
  | ExternalError (origin : string) (msg : string).

Inductive result (A : Type) : Type :=
  | Ok (a : A)
  | Raise (e : exn).
Arguments Ok {A} a.
Arguments Raise {A} e.

#[global] Instance result_ret : MRet result := @Ok.
#[global] Instance result_bind : MBind result := λ A B k m,
  match m with
  | Ok a => k a
  | Raise e => Raise e
  end.

#[global] Instance result_fmap : FMap result := λ A B f m,
  match m with
  | Ok a => Ok (f a)
  | Raise e => Raise e
  end.

(** A comprehension [[f x for x in l]] whose body may raise: the first
    exception aborts the whole comprehension. *)
Fixpoint for_each {A B} (f : A → result B) (l : list A) : result (list B) :=
  match l with
  | [] => Ok []
  | x :: l' => y ← f x; ys ← for_each f l'; Ok (y :: ys)
  end.

(** ** Real comparisons as booleans *)

Definition Rgtb (x y : R) : bool := if Rlt_dec y x then true else false.
Definition Reqb (x y : R) : bool := if Req_dec_T x y then true else false.

#[global] Instance R_eq_dec : EqDecision R := Req_dec_T.

(** ** Python built-ins used by the retriever *)

Module Py.

(** [len(range(n))]: a negative bound gives the empty range. *)
Definition range_len (n : Z) : nat := Z.to_nat n.

(** [l[:k]], negative [k] counting from the end. *)
Definition slice_to {A} (l : list A) (k : Z) : list A :=
  if (0 <=? k)%Z then take (Z.to_nat k) l
  else take (Z.to_nat (Z.of_nat (length l) + k)) l.

(** The scan of [max(iterable, key=key)]: the running maximum is
    replaced only by a strictly greater key, so the first maximal
    element wins. *)
Fixpoint max_from {A} (key : A → R) (best : A) (l : list A) : A :=
  match l with
  | [] => best
  | x :: l' => max_from key (if Rgtb (key x) (key best) then x else best) l'
  end.

Definition max_key {A} (key : A → R) (l : list A) : result A :=
  match l with
  | [] => Raise (ValueError "max() arg is an empty sequence")
  | x :: l' => Ok (max_from key x l')
  end.

(** [max(iterable)] on floats. *)
Definition max (l : list R) : result R := max_key (fun x => x) l.

(** [l.remove(x)]: drops the first element equal ([==]) to [x]. *)
Fixpoint remove `{EqDecision A} (x : A) (l : list A) : result (list A) :=
  match l with
  | [] => Raise (ValueError "list.remove(x): x not in list")
  | y :: l' =>
      if decide (y = x) then Ok l'
      else (r ← remove x l'; Ok (y :: r))
  end.

End Py.

(** ** numpy on one-dimensional float arrays *)

Definition Vector := list R.

Module Np.

Fixpoint sum_prod (a b : Vector) : R :=
  match a, b with
  | x :: a', y :: b' => x * y + sum_prod a' b'
  | _, _ => 0
  end.

(** [np.dot] of two 1-d arrays: the shapes must agree. *)
Definition dot (a b : Vector) : result R :=
  if Nat.eqb (length a) (length b) then Ok (sum_prod a b)
  else Raise (ValueError "shapes not aligned").

(** [np.linalg.norm] of a 1-d array: the Euclidean norm. *)
Definition linalg_norm (a : Vector) : R := sqrt (sum_prod a a).

End Np.

(** ** Documents *)

Record Candidate : Type := mkCandidate {
  content : string;
  metadata : gmap string string;
  embedding : Vector;
  similarity : R;
  _id : string
}.

#[global] Instance Candidate_eq_dec : EqDecision Candidate.
Proof. solve_decision. Defined.

(** The state of the selection loop of [_mmr_rerank]. *)
Record loop_state : Type := mkState {
  selected : list Candidate;
  remaining : list Candidate
}.

Module Retriever.

(** [HybridRetriever._cosine_similarity]. *)
Definition _cosine_similarity (vec1 vec2 : Vector) : result R :=
  dot_product ← Np.dot vec1 vec2;
  let norm1 := Np.linalg_norm vec1 in
  let norm2 := Np.linalg_norm vec2 in
  if Reqb norm1 0 || Reqb norm2 0 then Ok 0
  else Ok (dot_product / (norm1 * norm2)).

Section Rerank.
Variable query_embedding : Vector.
Variable lambda_param : R.

(** Body of the inner [for doc in remaining] loop: the pair appended
    to [mmr_scores]. *)
Definition mmr_entry (selected : list Candidate) (doc : Candidate)
  : result (Candidate * R) :=
  relevance ← _cosine_similarity query_embedding (embedding doc);
  diversity_penalty ←
    match selected with
    | [] => Ok 0
    | _ =>
        sims ← for_each
                  (fun sel => _cosine_similarity (embedding doc) (embedding sel))
                  selected;
        Py.max sims
    end;
  let mmr_score :=
    lambda_param * relevance - (1 - lambda_param) * diversity_penalty in
  Ok (doc, mmr_score).

(** One iteration of the outer loop, after the [if not remaining: break]
    test. *)
Definition mmr_round (st : loop_state) : result loop_state :=
  mmr_scores ← for_each (mmr_entry (selected st)) (remaining st);
  best ← Py.max_key snd mmr_scores;
  let best_doc := fst best in
  remaining' ← Py.remove best_doc (remaining st);
  Ok {| selected := selected st ++ [best_doc]; remaining := remaining' |}.

(** The outer [for _ in range(...)] loop with [n] values left in the
    range; the first component of the answer counts the iterations
    whose body ran to its end. *)
Fixpoint mmr_loop (n : nat) (st : loop_state) : result (nat * loop_state) :=
  match n with
  | O => Ok (O, st)
  | S n' =>
      match remaining st with
      | [] => Ok (O, st)
      | _ =>
          st' ← mmr_round st;
          r ← mmr_loop n' st';
          Ok (S (fst r), snd r)
      end
  end.

(** The selection loop of [_mmr_rerank], from its initial state. *)
Definition mmr_run (candidates : list Candidate) (top_k : Z)
  : result (nat * loop_state) :=
  mmr_loop (Py.range_len (Z.min top_k (Z.of_nat (length candidates))))
           {| selected := []; remaining := candidates |}.

(** [HybridRetriever._mmr_rerank]. *)
Definition _mmr_rerank (candidates : list Candidate) (top_k : Z)
  : result (list Candidate) :=
  match candidates with
  | [] => Ok []
  | _ => r ← mmr_run candidates top_k; Ok (selected (snd r))
  end.
End Rerank.

End Retriever.

(** ** The retrieval facade and its two external collaborators *)

(** A document as returned by the vector index. *)
Record Document : Type := mkDocument {
  doc_content : string;
  doc_metadata : gmap string string;
  doc_embedding : Vector;
  doc_score : option R;
  doc_id : string
}.

(** The aggregation pipeline sent to the index: the [$vectorSearch] stage
    and the optional [$match] stage (the [$project] stage is constant). *)
Record Pipeline : Type := mkPipeline {
  queryVector : Vector;
  numCandidates : Z;
  limit : Z;
  match_stage : option (gmap string string)
}.

(** An element of the list returned by [semantic_search]: a candidate
    whose [embedding] key has been popped. *)
Record SearchResult : Type := mkSearchResult {
  res_content : string;
  res_metadata : gmap string string;
  res_similarity : R;
  res_id : string
}.

(** Calls made to the outside world, in the order they are made. *)
Inductive call : Type :=
  | GenerateEmbedding (text : string)
  | Aggregate (pipeline : Pipeline).

(** Computations that may raise and that log their external calls. *)
Definition IO (A : Type) : Type := list call → list call * result A.

#[global] Instance IO_ret : MRet IO := λ A a log, (log, Ok a).
#[global] Instance IO_bind : MBind IO := λ A B k m log,
  match m log with
  | (log', Ok a) => k a log'
  | (log', Raise e) => (log', Raise e)
  end.

Definition lift {A} (r : result A) : IO A := λ log, (log, r).

Module Facade.
Section SemanticSearch.
(** [self.embedding_generator.generate_embedding], [self.collection.aggregate]
    and the configured default [TOP_K]. *)
Variable generate_embedding : string → result Vector.
Variable aggregate : Pipeline → result (list Document).
Variable TOP_K : Z.

Definition call_generate_embedding (text : string) : IO Vector :=
  λ log, (log ++ [GenerateEmbedding text], generate_embedding text).

Definition call_aggregate (p : Pipeline) : IO (list Document) :=
  λ log, (log ++ [Aggregate p], aggregate p).

Definition to_candidate (doc : Document) : Candidate :=
  {| content := doc_content doc;
     metadata := doc_metadata doc;
     embedding := doc_embedding doc;
     similarity := default 0 (doc_score doc);
     _id := doc_id doc |}.

Definition pop_embedding (c : Candidate) : SearchResult :=
  {| res_content := content c;
     res_metadata := metadata c;
     res_similarity := similarity c;
     res_id := _id c |}.

(** [HybridRetriever.semantic_search]. *)
Definition semantic_search (query : string)
    (filters : option (gmap string string)) (top_k : option Z)
    (use_mmr : bool) (lambda_param : R) : IO (list SearchResult) :=
  let top_k := default TOP_K top_k in
  query_embedding ← call_generate_embedding query;
  let fetch_limit := if use_mmr then (top_k * 3)%Z else top_k in
  let pipeline :=
    {| queryVector := query_embedding;
       numCandidates := 100;
       limit := fetch_limit;
       match_stage :=
         match filters with
         | Some f => if decide (f = ∅) then None else Some f
         | None => None
         end |} in
  docs ← call_aggregate pipeline;
  let candidates := map to_candidate docs in
  results ← lift
    (if use_mmr && bool_decide (0 < length candidates)%nat
     then Retriever._mmr_rerank query_embedding lambda_param candidates top_k
     else Ok (Py.slice_to candidates top_k));
  mret (map pop_embedding results).
End SemanticSearch.
End Facade.

(** An [Aggregate] call occurs in a log. *)
Definition index_invoked (log : list call) : Prop :=
  ∃ p, Aggregate p ∈ log.

(** ** Pure values computed by the code when no exception is raised *)

(** The value returned by [_cosine_similarity] on vectors of one length. *)
Definition cosine (a b : Vector) : R :=
  if Reqb (Np.linalg_norm a) 0 || Reqb (Np.linalg_norm b) 0 then 0
  else Np.sum_prod a b / (Np.linalg_norm a * Np.linalg_norm b).

(** Similarity of a candidate to the query, read off the code's answer. *)
Definition relevance (q : Vector) (c : Candidate) : R :=
  match Retriever._cosine_similarity q (embedding c) with
  | Ok r => r
  | Raise _ => 0
  end.

(** Every embedding of the pool has the dimension of the query. *)
Definition same_dim (q : Vector) (cs : list Candidate) : Prop :=
  Forall (λ c, length (embedding c) = length q) cs.

(** [l] splits around the first element whose key is maximal. *)
Definition first_max {A} (key : A → R) (l1 : list A) (x : A) (l2 : list A) : Prop :=
  Forall (λ y, key y < key x) l1 ∧ Forall (λ y, key y <= key x) l2.

(** The score that [mmr_entry] attaches to a document. *)
Definition penalty (sel : list Candidate) (d : Candidate) : R :=
  match sel with
  | [] => 0
  | s :: sel' =>
      Py.max_from (λ x, x) (cosine (embedding d) (embedding s))
                  (map (λ s', cosine (embedding d) (embedding s')) sel')
  end.

Definition mmr_score (q : Vector) (lam : R) (sel : list Candidate) (d : Candidate) : R :=
  lam * cosine q (embedding d) - (1 - lam) * penalty sel d.

(** ** Sorting by relevance, as the specification words it *)

(** Stable insertion into a list sorted by descending key: [x] came
    before the elements of [l] in the input, so it passes only elements
    of strictly greater key. *)
Fixpoint insert_desc {A} (key : A → R) (x : A) (l : list A) : list A :=
  match l with
  | [] => [x]
  | y :: l' => if Rgtb (key y) (key x) then y :: insert_desc key x l' else x :: y :: l'
  end.

Fixpoint stable_sort_desc {A} (key : A → R) (l : list A) : list A :=
  match l with
  | [] => []
  | x :: l' => insert_desc key x (stable_sort_desc key l')
  end.

(** Candidates sorted by descending similarity to the query, ties broken
    by original order. *)
Definition sorted_by_relevance (q : Vector) (cs : list Candidate) : list Candidate :=
  stable_sort_desc (relevance q) cs.

(** ** Sample data *)

Definition doc (id : string) (emb : Vector) (score : R) : Candidate :=
  {| content := id; metadata := ∅; embedding := emb; similarity := score; _id := id |}.

Definition docA : Candidate := doc "A" [1; 0] (9/10).
Definition docC : Candidate := doc "C" [0; 1] (1/2).

(** The pipeline that [semantic_search] sends to the index. *)
Definition sent_pipeline (v : Vector) (filters : option (gmap string string))
    (k : Z) (use_mmr : bool) : Pipeline :=
  {| queryVector := v;
     numCandidates := 100;
     limit := if use_mmr then (k * 3)%Z else k;
     match_stage :=
       match filters with
       | Some f => if decide (f = ∅) then None else Some f
       | None => None
       end |}.

(** A rewriting [f] of documents, applied to a state of the loop. *)
Definition map_state (f : Candidate → Candidate) (st : loop_state) : loop_state :=
  {| selected := map f (selected st); remaining := map f (remaining st) |}.

(** ** Lookups by metadata ([get_by_ticket_id], [get_by_provider],
       [get_ticket_with_provider_docs], [get_providers_with_capability]) *)

(** An element of the lists returned by [get_by_ticket_id] and
    [get_by_provider].  A metadata key whose value is [None] is modelled
    as an absent key: [metadata.get] gives [None] for both. *)
Record Chunk : Type := mkChunk {
  chunk_content : string;
  chunk_metadata : gmap string string;
  chunk_id : string
}.

(** The dictionary returned by [get_ticket_with_provider_docs]: either
    the one with the [error] key, whose [ticket] is [None] and whose
    [provider_docs] is empty, or the one with the ticket. *)
Inductive TicketLookup : Type :=
  | TicketNotFound (error : string)
  | TicketFound (ticket_id : string) (ticket : list Chunk)
                (provider_name : option string) (provider_docs : list Chunk).

(** Computations that may raise and that log the filter of each
    [collection.find] call. *)
Definition DB (A : Type) : Type :=
  list (gmap string string) → list (gmap string string) * result A.

#[global] Instance DB_ret : MRet DB := λ A a log, (log, Ok a).
#[global] Instance DB_bind : MBind DB := λ A B k m log,
  match m log with
  | (log', Ok a) => k a log'
  | (log', Raise e) => (log', Raise e)
  end.

Module Lookup.
Section Find.
(** [self.collection.find]. *)
Variable find : gmap string string → result (list Document).

Definition call_find (filters : gmap string string) : DB (list Document) :=
  λ log, (log ++ [filters], find filters).

Definition to_chunk (doc : Document) : Chunk :=
  {| chunk_content := doc_content doc;
     chunk_metadata := doc_metadata doc;
     chunk_id := doc_id doc |}.

(** [HybridRetriever.get_by_ticket_id]. *)
Definition get_by_ticket_id (ticket_id : string) : DB (list Chunk) :=
  documents ← call_find {["metadata.source_id" := ticket_id]};
  mret (map to_chunk documents).

(** [HybridRetriever.get_by_provider]. *)
Definition get_by_provider (provider_name : string) (doc_type : option string)
  : DB (list Chunk) :=
  let filters : gmap string string := {["metadata.provider_name" := provider_name]} in
  let filters :=
    match doc_type with
    | Some t => if decide (t = "") then filters
                else <["metadata.document_type" := t]> filters
    | None => filters
    end in
  documents ← call_find filters;
  mret (map to_chunk documents).

(** [HybridRetriever.get_ticket_with_provider_docs]. *)
Definition get_ticket_with_provider_docs (ticket_id : string) : DB TicketLookup :=
  ticket_chunks ← get_by_ticket_id ticket_id;
  match ticket_chunks with
  | [] => mret (TicketNotFound "Ticket not found")
  | first :: _ =>
      let provider_name := chunk_metadata first !! "provider_name" in
      provider_docs ←
        match provider_name with
        | Some p => if decide (p = "") then mret []
                    else get_by_provider p (Some "confluence")
        | None => mret []
        end;
      mret (TicketFound ticket_id ticket_chunks provider_name provider_docs)
  end.
End Find.
End Lookup.

Module Capability.
Section Providers.
Variable generate_embedding : string → result Vector.
Variable aggregate : Pipeline → result (list Document).
Variable TOP_K : Z.

(** The body of the loop that fills the set [providers]. *)
Definition add_provider (providers : gset string) (result : SearchResult)
  : gset string :=
  match res_metadata result !! "provider_name" with
  | Some p => if decide (p = "") then providers else providers ∪ {[p]}
  | None => providers
  end.

(** [HybridRetriever.get_providers_with_capability]; the list it returns
    is built from a set, so its order is not fixed and the set is
    returned here. *)
Definition get_providers_with_capability (capability : string) : IO (gset string) :=
  results ← Facade.semantic_search generate_embedding aggregate TOP_K
              capability (Some {["metadata.document_type" := "confluence"]})
              (Some 20%Z) true (7/10);
  mret (foldl add_provider ∅ results).
End Providers.
End Capability.

(** ** Sources of an answer ([ResponseGenerator._extract_sources]) *)

Record Source : Type := mkSource {
  source_id : string;
  source_type : option string;
  source_provider : option string;
  source_file : option string
}.

Module Generator.

(** The body of the loop of [_extract_sources], on the pair of [sources]
    and [seen]. *)
Definition extract_step (acc : list Source * gset string) (doc : SearchResult)
  : list Source * gset string :=
  let metadata := res_metadata doc in
  match metadata !! "source_id" with
  | Some sid =>
      if decide (sid ≠ "" ∧ sid ∉ acc.2)
      then (acc.1 ++ [{| source_id := sid;
                         source_type := metadata !! "document_type";
                         source_provider := metadata !! "provider_name";
                         source_file := metadata !! "source_file" |}],
            acc.2 ∪ {[sid]})
      else acc
  | None => acc
  end.

(** [ResponseGenerator._extract_sources]. *)
Definition _extract_sources (context_docs : list SearchResult) : list Source :=
  (foldl extract_step ([], ∅) context_docs).1.

End Generator.

(** The fields that [_extract_sources] reads off a document. *)
Definition source_of (d : SearchResult) (sid : string) : Source :=
  {| source_id := sid;
     source_type := res_metadata d !! "document_type";
     source_provider := res_metadata d !! "provider_name";
     source_file := res_metadata d !! "source_file" |}.

(** ** Ticket counts ([count_by_team]) *)

(** The stages used by the counting pipelines: [$match] on a filter and
    [$group] by a field with [count: {$sum: 1}]. *)
Inductive stage : Type :=
  | MatchStage (filters : gmap string string)
  | GroupCountStage (field : string).

Module Analytics.
Section Counts.
(** [self.collection.aggregate] on a counting pipeline: one row per group,
    with its [_id] ([None] for documents without the field) and its
    [count]. *)
Variable aggregate_counts : list stage → result (list (option string * Z)).

(** The dictionary comprehension of [count_by_team]: rows whose [_id] is
    [None] or empty are skipped, a later row replaces an earlier one of
    the same [_id]. *)
Definition add_team (counts : gmap string Z) (item : option string * Z)
  : gmap string Z :=
  match item.1 with
  | Some team => if decide (team = "") then counts else <[team := item.2]> counts
  | None => counts
  end.

(** [HybridRetriever.count_by_team]. *)
Definition count_by_team : result (gmap string Z) :=
  results ← aggregate_counts
              [MatchStage {["metadata.document_type" := "jira"]};
               GroupCountStage "$metadata.team"];
  Ok (foldl add_team ∅ results).
End Counts.
End Analytics.

(** ** The similarity and the first-round score on binary64

    The same two computations on the floats the program uses, to evaluate
    them where rounding decides: [np.dot] and [np.linalg.norm] on short
    vectors, the quotient of [_cosine_similarity], and the score line of
    [_mmr_rerank] with a diversity penalty of [0.0]. *)
Module Binary64.
Import PrimFloat.

Fixpoint dot (a b : list float) : float :=
  match a, b with
  | x :: a', y :: b' => (x * y + dot a' b')%float
  | _, _ => 0%float
  end.

Definition linalg_norm (a : list float) : float := sqrt (dot a a).

Definition _cosine_similarity (vec1 vec2 : list float) : float :=
  let dot_product := dot vec1 vec2 in
  let norm1 := linalg_norm vec1 in
  let norm2 := linalg_norm vec2 in
  if (norm1 =? 0)%float || (norm2 =? 0)%float then 0%float
  else (dot_product / (norm1 * norm2))%float.

Definition first_round_score (lambda_param relevance : float) : float :=
  (lambda_param * relevance - (1 - lambda_param) * 0)%float.

(** A query and two documents whose similarities to it differ in the last
    digit: [[1, 0]], [[1, 1.5 * 2^-26]] and [[1 - 2^-53, 2^-26]]. *)
Definition query : list float := [1%float; 0%float].
Definition near1 : list float := [1%float; 0x1.8p-26%float].
Definition near2 : list float := [0x1.fffffffffffffp-1%float; 0x1p-26%float].

(** The float nearest to 0.7. *)
Definition lam07 : float := 0x1.6666666666666p-1%float.

End Binary64.

(** * Lemmas *)

Section Comparisons.
Lemma Rgtb_true x y : y < x → Rgtb x y = true.
Proof. unfold Rgtb. destruct (Rlt_dec y x); [done | contradiction]. Qed.

Lemma Rgtb_false x y : x <= y → Rgtb x y = false.
Proof. unfold Rgtb. destruct (Rlt_dec y x); [lra | done]. Qed.

Lemma Reqb_true x y : x = y → Reqb x y = true.
Proof. unfold Reqb. destruct (Req_dec_T x y); [done | contradiction]. Qed.

Lemma Reqb_false x y : x ≠ y → Reqb x y = false.
Proof. unfold Reqb. destruct (Req_dec_T x y); [contradiction | done]. Qed.
End Comparisons.

Section PyMax.
Context {A : Type} (key : A → R).

Lemma max_from_split (l : list A) : ∀ b,
  (Py.max_from key b l = b ∧ Forall (λ y, key y <= key b) l) ∨
  (∃ l1 l2, l = l1 ++ Py.max_from key b l :: l2 ∧
            key b < key (Py.max_from key b l) ∧
            Forall (λ y, key y < key (Py.max_from key b l)) l1 ∧
            Forall (λ y, key y <= key (Py.max_from key b l)) l2).
Proof.
  induction l as [|x l IH]; intros b; simpl.
  - left. split; [done | constructor].
  - destruct (Rlt_dec (key b) (key x)) as [Hlt | Hge].
    + rewrite Rgtb_true by done.
      destruct (IH x) as [[-> Hall] | (l1 & l2 & Heq & Hx & H1 & H2)].
      * right. exists [], l. repeat split; auto.
      * right. exists (x :: l1), l2. rewrite Heq at 1. repeat split; auto.
        lra.
    + rewrite Rgtb_false by lra.
      destruct (IH b) as [[-> Hall] | (l1 & l2 & Heq & Hx & H1 & H2)].
      * left. split; [done |]. constructor; [lra | done].
      * right. exists (x :: l1), l2. rewrite Heq at 1. repeat split; auto.
        constructor; [lra | done].
Qed.

Lemma max_key_first_max (l : list A) :
  l ≠ [] →
  ∃ l1 x l2, l = l1 ++ x :: l2 ∧ Py.max_key key l = Ok x ∧ first_max key l1 x l2.
Proof.
  destruct l as [|b l]; [done | intros _]. simpl.
  destruct (max_from_split l b) as [[-> Hall] | (l1 & l2 & Heq & Hx & H1 & H2)].
  - exists [], b, l. repeat split; auto.
  - exists (b :: l1), (Py.max_from key b l), l2.
    split; [by rewrite Heq at 1 |]. split; [done |]. split; [| done].
    by constructor.
Qed.

(** The split around the first maximum is unique. *)
Lemma first_max_unique l1 x l2 l1' x' l2' :
  l1 ++ x :: l2 = l1' ++ x' :: l2' →
  first_max key l1 x l2 → first_max key l1' x' l2' →
  l1 = l1' ∧ x = x' ∧ l2 = l2'.
Proof.
  revert l1'. induction l1 as [|a l1 IH]; intros [|a' l1'] Heq [H1 H2] [H1' H2'];
    simplify_eq/=.
  - done.
  - apply Forall_cons in H1' as [Ha _].
    rewrite Forall_app, Forall_cons in H2. destruct H2 as (_ & Hx & _). lra.
  - apply Forall_cons in H1 as [Ha _].
    rewrite Forall_app, Forall_cons in H2'. destruct H2' as (_ & Hx & _). lra.
  - apply Forall_cons in H1 as [_ H1]. apply Forall_cons in H1' as [_ H1'].
    destruct (IH l1') as (-> & -> & ->); done.
Qed.

Lemma max_key_tagged (l : list A) :
  Py.max_key snd (map (λ x, (x, key x)) l) = (λ x, (x, key x)) <$> Py.max_key key l.
Proof.
  destruct l as [|b l]; [done |]. simpl. f_equal.
  revert b. induction l as [|x l IH]; intros b; [done |]. simpl.
  rewrite <- IH. by destruct (Rgtb (key x) (key b)).
Qed.
End PyMax.

Section PyRemove.
Context `{EqDecision A}.

Lemma remove_middle (l1 l2 : list A) x :
  x ∉ l1 → Py.remove x (l1 ++ x :: l2) = Ok (l1 ++ l2).
Proof.
  induction l1 as [|y l1 IH]; intros Hnot; simpl.
  - by rewrite decide_True.
  - apply not_elem_of_cons in Hnot as [Hne Hnot].
    rewrite decide_False by done. by rewrite IH.
Qed.
End PyRemove.

Section ForEach.
Context {A B : Type}.

Lemma for_each_ok (f : A → result B) (g : A → B) (l : list A) :
  Forall (λ x, f x = Ok (g x)) l → for_each f l = Ok (map g l).
Proof.
  induction 1 as [|x l Hx _ IH]; simpl; [done |]. by rewrite Hx, IH.
Qed.

Lemma for_each_raise (f : A → result B) (l1 l2 : list A) x e :
  Forall (λ y, ∃ b, f y = Ok b) l1 → f x = Raise e →
  for_each f (l1 ++ x :: l2) = Raise e.
Proof.
  induction 1 as [|y l1 [b Hy] _ IH]; intros Hx; simpl.
  - by rewrite Hx.
  - by rewrite Hy, IH.
Qed.
End ForEach.

Section CauchySchwarz.
Lemma sum_prod_self_nonneg a : 0 <= Np.sum_prod a a.
Proof. induction a as [|x a IH]; simpl; [lra | nra]. Qed.

Lemma Rsqr_le_nonneg P Q : 0 <= P → Q * Q <= P * P → Q <= P.
Proof. intros HP HQ. destruct (Rle_lt_dec Q P) as [|Hlt]; [done | nra]. Qed.

Lemma cauchy_schwarz a : ∀ b,
  Np.sum_prod a b * Np.sum_prod a b <= Np.sum_prod a a * Np.sum_prod b b.
Proof.
  induction a as [|x a IH]; intros [|y b]; simpl.
  - lra.
  - lra.
  - pose proof (sum_prod_self_nonneg a). nra.
  - specialize (IH b).
    pose proof (sum_prod_self_nonneg a) as HA.
    pose proof (sum_prod_self_nonneg b) as HB.
    set (s := Np.sum_prod a b) in *. set (A := Np.sum_prod a a) in *.
    set (B := Np.sum_prod b b) in *.
    assert (H2 : 2 * (x * y * s) <= x * x * B + y * y * A).
    { apply Rsqr_le_nonneg; [nra |].
      pose proof (Rle_0_sqr (x * x * B - y * y * A)) as Hsq. unfold Rsqr in Hsq.
      assert (0 <= (x * y) * (x * y) * (A * B - s * s)).
      { apply Rmult_le_pos; [nra | lra]. }
      nra. }
    nra.
Qed.
End CauchySchwarz.

Section Cosine.
Lemma cosine_similarity_ok a b :
  length a = length b → Retriever._cosine_similarity a b = Ok (cosine a b).
Proof.
  intros Hlen. unfold Retriever._cosine_similarity, Np.dot, cosine.
  rewrite Hlen, Nat.eqb_refl. simpl.
  by destruct (Reqb (Np.linalg_norm a) 0 || Reqb (Np.linalg_norm b) 0).
Qed.

Lemma cosine_similarity_mismatch a b :
  length a ≠ length b →
  Retriever._cosine_similarity a b = Raise (ValueError "shapes not aligned").
Proof.
  intros Hlen. unfold Retriever._cosine_similarity, Np.dot.
  apply Nat.eqb_neq in Hlen. by rewrite Hlen.
Qed.

Lemma relevance_cosine q c :
  length (embedding c) = length q → relevance q c = cosine q (embedding c).
Proof. intros H. unfold relevance. by rewrite cosine_similarity_ok. Qed.
(** What holds of the value in exact arithmetic: 0 on a zero-norm
    argument, 1 on a non-zero vector against itself, and always within
    [[-1, 1]].  The first is exact on floats as well; rounding can move
    the other two in the last digit. *)
Lemma cosine_zero_norm a b :
  Np.linalg_norm a = 0 ∨ Np.linalg_norm b = 0 → cosine a b = 0.
Proof.
  intros Hz. unfold cosine.
  destruct Hz as [-> | ->]; rewrite (Reqb_true 0 0) by done; [done |].
  by rewrite orb_true_r.
Qed.

Lemma cosine_self a : Np.linalg_norm a ≠ 0 → cosine a a = 1.
Proof.
  intros Hnz. unfold cosine. rewrite Reqb_false by done. simpl.
  unfold Np.linalg_norm in *.
  rewrite sqrt_sqrt by apply sum_prod_self_nonneg.
  apply Rdiv_diag. intros Hz. apply Hnz. rewrite Hz. apply sqrt_0.
Qed.

Lemma cosine_bounds a b : -1 <= cosine a b <= 1.
Proof.
  unfold cosine.
  destruct (Req_dec_T (Np.linalg_norm a) 0) as [Ha | Ha].
  { rewrite Reqb_true by done. simpl. lra. }
  destruct (Req_dec_T (Np.linalg_norm b) 0) as [Hb | Hb].
  { rewrite (Reqb_true _ _ Hb), orb_true_r. lra. }
  rewrite !Reqb_false by done. simpl.
  pose proof (cauchy_schwarz a b) as Hcs.
  unfold Np.linalg_norm in *.
  pose proof (sqrt_pos (Np.sum_prod a a)) as Hpa.
  pose proof (sqrt_pos (Np.sum_prod b b)) as Hpb.
  pose proof (sqrt_sqrt _ (sum_prod_self_nonneg a)) as Hsa.
  pose proof (sqrt_sqrt _ (sum_prod_self_nonneg b)) as Hsb.
  set (na := sqrt (Np.sum_prod a a)) in *. set (nb := sqrt (Np.sum_prod b b)) in *.
  set (d := Np.sum_prod a b) in *.
  assert (Hm : 0 < na * nb) by (apply Rmult_lt_0_compat; lra).
  assert (Hsq : d * d <= (na * nb) * (na * nb)) by nra.
  assert (Hup : d <= na * nb) by (apply Rsqr_le_nonneg; [lra | nra]).
  assert (Hlo : - d <= na * nb) by (apply Rsqr_le_nonneg; [lra | nra]).
  assert (Hq : d / (na * nb) * (na * nb) = d) by (field; lra).
  split; nra.
Qed.
End Cosine.

Section Round.
Variables (q : Vector) (lam : R).

Lemma mmr_entry_ok sel d :
  same_dim q sel → length (embedding d) = length q →
  Retriever.mmr_entry q lam sel d = Ok (d, mmr_score q lam sel d).
Proof.
  intros Hsel Hd. unfold Retriever.mmr_entry, mmr_score.
  rewrite cosine_similarity_ok by done. simpl.
  destruct sel as [|s sel']; [done |].
  rewrite (for_each_ok _ (λ s', cosine (embedding d) (embedding s'))).
  - done.
  - eapply Forall_impl; [exact Hsel |]. simpl. intros s' Hs'.
    apply cosine_similarity_ok. congruence.
Qed.

Lemma mmr_scores_ok sel rem :
  same_dim q sel → same_dim q rem →
  for_each (Retriever.mmr_entry q lam sel) rem
  = Ok (map (λ d, (d, mmr_score q lam sel d)) rem).
Proof.
  intros Hsel Hrem. apply for_each_ok.
  eapply Forall_impl; [exact Hrem |]. simpl. intros d Hd. by apply mmr_entry_ok.
Qed.

(** One round: the first document of maximal score moves from
    [remaining] to the end of [selected]. *)
Lemma mmr_round_split sel rem :
  same_dim q sel → same_dim q rem → rem ≠ [] →
  ∃ l1 best l2,
    rem = l1 ++ best :: l2 ∧
    first_max (mmr_score q lam sel) l1 best l2 ∧
    Retriever.mmr_round q lam {| selected := sel; remaining := rem |}
    = Ok {| selected := sel ++ [best]; remaining := l1 ++ l2 |}.
Proof.
  intros Hsel Hrem Hne.
  destruct (max_key_first_max (mmr_score q lam sel) rem Hne)
    as (l1 & best & l2 & Heq & Hmax & Hfm).
  exists l1, best, l2. split; [done |]. split; [done |].
  unfold Retriever.mmr_round. simpl.
  rewrite mmr_scores_ok by done. simpl.
  rewrite max_key_tagged, Hmax. simpl.
  rewrite Heq, remove_middle; [done |].
  intros Hin. destruct Hfm as [Hlt _].
  rewrite Forall_forall in Hlt. specialize (Hlt _ Hin). lra.
Qed.
End Round.

Section Loop.
Variables (q : Vector) (lam : R).

Lemma same_dim_perm (l k : list Candidate) : l ≡ₚ k → same_dim q l → same_dim q k.
Proof. intros Hp. unfold same_dim. by rewrite Hp. Qed.

(** The loop on well-dimensioned pools: it runs [min n (length rem)]
    rounds, and what it selects together with what it leaves is the
    pool it started from. *)
Lemma mmr_loop_spec n : ∀ sel rem,
  same_dim q sel → same_dim q rem →
  ∃ sel' rem',
    Retriever.mmr_loop q lam n {| selected := sel; remaining := rem |}
    = Ok (n `min` length rem, {| selected := sel ++ sel'; remaining := rem' |}) ∧
    length sel' = n `min` length rem ∧
    sel' ++ rem' ≡ₚ rem.
Proof.
  induction n as [|n IH]; intros sel rem Hsel Hrem.
  - exists [], rem. simpl. by rewrite app_nil_r.
  - destruct rem as [|c rem0].
    + exists [], []. simpl. by rewrite app_nil_r.
    + destruct (mmr_round_split q lam sel (c :: rem0)) as (l1 & best & l2 & Heq & _ & Hround);
        [done | done | done |].
      assert (Hperm : c :: rem0 ≡ₚ best :: (l1 ++ l2)).
      { rewrite Heq. symmetry. apply Permutation_middle. }
      pose proof (same_dim_perm _ _ Hperm Hrem) as Hdim.
      apply Forall_cons in Hdim as [Hbest Hrest].
      destruct (IH (sel ++ [best]) (l1 ++ l2)) as (sel'' & rem'' & Hloop & Hlen & Hp).
      { apply Forall_app. split; [done |]. by constructor. }
      { done. }
      exists (best :: sel''), rem''.
      assert (Hsz : length (c :: rem0) = S (length (l1 ++ l2))).
      { by rewrite Hperm. }
      split; [| split].
      * cbn [Retriever.mmr_loop remaining]. rewrite Hround. simpl.
        rewrite Hloop. simpl. rewrite <- app_assoc. simpl.
        do 2 f_equal. simpl in Hsz. lia.
      * simpl. rewrite Hlen. simpl in Hsz. lia.
      * rewrite Hperm. simpl. by rewrite Hp.
Qed.

(** Without any assumption on dimensions: a round that completes
    removes exactly one document from [remaining]. *)
Lemma remove_length `{EqDecision A} (x : A) (l l' : list A) :
  Py.remove x l = Ok l' → length l = S (length l').
Proof.
  revert l'. induction l as [|y l IH]; intros l'; simpl; [done |].
  destruct (decide (y = x)); [by intros [= ->] |].
  destruct (Py.remove x l) as [r|e]; simpl; [| done].
  intros [= <-]. simpl. by rewrite (IH r).
Qed.

Lemma mmr_round_length st st' :
  Retriever.mmr_round q lam st = Ok st' →
  length (remaining st) = S (length (remaining st')) ∧
  length (selected st') = S (length (selected st)).
Proof.
  unfold Retriever.mmr_round.
  destruct (for_each _ _) as [scores|]; simpl; [| done].
  destruct (Py.max_key snd scores) as [best|]; simpl; [| done].
  destruct (Py.remove _ _) as [rem'|] eqn:Hrem; simpl; [| done].
  intros [= <-]. simpl. split.
  - by apply remove_length in Hrem.
  - rewrite length_app. simpl. lia.
Qed.

Lemma mmr_loop_bound n : ∀ st iters st',
  Retriever.mmr_loop q lam n st = Ok (iters, st') →
  (iters ≤ n)%nat ∧
  (iters + length (remaining st') = length (remaining st))%nat ∧
  (length (selected st') = length (selected st) + iters)%nat.
Proof.
  induction n as [|n IH]; intros st iters st'; simpl.
  - intros [= <- <-]. lia.
  - destruct (remaining st) as [|c rem0] eqn:Hrem.
    + intros [= <- <-]. rewrite Hrem. simpl. lia.
    + destruct (Retriever.mmr_round q lam st) as [st1|] eqn:Hround; simpl; [| done].
      destruct (Retriever.mmr_loop q lam n st1) as [[k st2]|] eqn:Hloop; simpl; [| done].
      intros [= <- <-].
      apply mmr_round_length in Hround as [Hr Hs].
      apply IH in Hloop as (Hk & Hr' & Hs').
      rewrite Hrem in Hr. simpl in Hr. lia.
Qed.
End Loop.

Section Evaluation.
Lemma norm_e1 : Np.linalg_norm [1; 0] = 1.
Proof.
  unfold Np.linalg_norm. simpl.
  replace (1 * 1 + (0 * 0 + 0)) with 1 by lra. apply sqrt_1.
Qed.


Lemma norm_minus_e1 : Np.linalg_norm [-1; 0] = 1.
Proof.
  unfold Np.linalg_norm. simpl.
  replace (-1 * -1 + (0 * 0 + 0)) with 1 by lra. apply sqrt_1.
Qed.



Lemma cosine_e1_minus_e1 : cosine [1; 0] [-1; 0] = -1.
Proof.
  unfold cosine. rewrite norm_e1, norm_minus_e1, Reqb_false by lra. simpl. lra.
Qed.
End Evaluation.

Section RerankFacts.
Variables (q : Vector) (lam : R).

Lemma mmr_run_spec cs top_k :
  same_dim q cs →
  ∃ st,
    Retriever.mmr_run q lam cs top_k
    = Ok (Py.range_len (Z.min top_k (Z.of_nat (length cs))), st) ∧
    length (selected st) = Py.range_len (Z.min top_k (Z.of_nat (length cs))) ∧
    selected st ++ remaining st ≡ₚ cs.
Proof.
  intros Hdim. unfold Retriever.mmr_run.
  set (n := Py.range_len _).
  assert (Hn : (n ≤ length cs)%nat) by (unfold n, Py.range_len; lia).
  destruct (mmr_loop_spec q lam n [] cs) as (sel & rem & Hloop & Hlen & Hperm);
    [constructor | done |].
  rewrite Nat.min_l in Hloop, Hlen by done.
  exists {| selected := sel; remaining := rem |}. by rewrite Hloop.
Qed.

Lemma rerank_spec cs top_k :
  same_dim q cs →
  ∃ res rest,
    Retriever._mmr_rerank q lam cs top_k = Ok res ∧
    length res = Py.range_len (Z.min top_k (Z.of_nat (length cs))) ∧
    res ++ rest ≡ₚ cs.
Proof.
  intros Hdim. destruct cs as [|c cs'].
  - exists [], []. simpl. repeat split; [| done].
    unfold Py.range_len. lia.
  - destruct (mmr_run_spec (c :: cs') top_k Hdim) as (st & Hrun & Hlen & Hperm).
    exists (selected st), (remaining st).
    unfold Retriever._mmr_rerank. by rewrite Hrun.
Qed.

Lemma rerank_negative_top_k cs top_k :
  (top_k < 0)%Z → Retriever._mmr_rerank q lam cs top_k = Ok [].
Proof.
  intros Hneg. destruct cs as [|c cs']; [done |].
  unfold Retriever._mmr_rerank, Retriever.mmr_run, Py.range_len.
  replace (Z.to_nat _) with 0%nat by lia. done.
Qed.
End RerankFacts.

Section StableSort.
Context {A : Type} (key : A → R).

Lemma insert_desc_perm x l : insert_desc key x l ≡ₚ x :: l.
Proof.
  induction l as [|y l IH]; simpl; [done |].
  destruct (Rgtb (key y) (key x)); [| done].
  rewrite IH. apply Permutation_swap.
Qed.

Lemma stable_sort_desc_perm l : stable_sort_desc key l ≡ₚ l.
Proof.
  induction l as [|x l IH]; simpl; [done |].
  by rewrite insert_desc_perm, IH.
Qed.

Lemma insert_desc_sorted x l :
  StronglySorted (λ a b, key b <= key a) l →
  StronglySorted (λ a b, key b <= key a) (insert_desc key x l).
Proof.
  induction 1 as [|y l Hs IH Hy]; simpl.
  - repeat constructor.
  - unfold Rgtb. destruct (Rlt_dec (key x) (key y)) as [Hlt | Hge].
    + constructor; [done |].
      rewrite insert_desc_perm. constructor; [lra | done].
    + constructor; [by constructor |].
      constructor; [lra |].
      eapply Forall_impl; [exact Hy | simpl; intros; lra].
Qed.

Lemma stable_sort_desc_sorted l :
  StronglySorted (λ a b, key b <= key a) (stable_sort_desc key l).
Proof.
  induction l as [|x l IH]; simpl; [constructor |].
  by apply insert_desc_sorted.
Qed.

(** Stability: documents of one key keep their input order. *)
Lemma insert_desc_stable v x l :
  filter (λ y, key y = v) (insert_desc key x l) = filter (λ y, key y = v) (x :: l).
Proof.
  induction l as [|y l IH]; simpl; [done |].
  unfold Rgtb. destruct (Rlt_dec (key x) (key y)) as [Hlt | Hge]; [| done].
  rewrite (filter_cons _ y), IH, !filter_cons.
  destruct (decide (key y = v)), (decide (key x = v)); try done. lra.
Qed.

Lemma stable_sort_desc_stable v l :
  filter (λ y, key y = v) (stable_sort_desc key l) = filter (λ y, key y = v) l.
Proof.
  induction l as [|x l IH]; simpl; [done |].
  by rewrite insert_desc_stable, !filter_cons, IH.
Qed.

Lemma insert_desc_head x l :
  Forall (λ y, key y <= key x) l → insert_desc key x l = x :: l.
Proof.
  destruct 1 as [|y l Hy _]; simpl; [done |]. by rewrite Rgtb_false.
Qed.

(** Selection and insertion agree: the sorted list starts with the
    first maximum, followed by the sorted remainder. *)
Lemma stable_sort_desc_first_max l1 x l2 :
  first_max key l1 x l2 →
  stable_sort_desc key (l1 ++ x :: l2) = x :: stable_sort_desc key (l1 ++ l2).
Proof.
  intros [Hlt Hle]. induction Hlt as [|a l1 Ha _ IH]; simpl.
  - apply insert_desc_head. by rewrite stable_sort_desc_perm.
  - rewrite IH. simpl. by rewrite Rgtb_true.
Qed.

Lemma first_max_ext (key' : A → R) l1 x l2 :
  Forall (λ y, key y = key' y) (l1 ++ x :: l2) →
  first_max key l1 x l2 → first_max key' l1 x l2.
Proof.
  intros Hext [Hlt Hle].
  apply Forall_app in Hext as [H1 Hext]. apply Forall_cons in Hext as [Hx H2].
  rewrite Forall_forall in H1, H2, Hlt, Hle.
  split; apply Forall_forall; intros y Hy.
  - rewrite <- (H1 y Hy), <- Hx. by apply Hlt.
  - rewrite <- (H2 y Hy), <- Hx. by apply Hle.
Qed.
End StableSort.

Section FirstPick.
Variables (q : Vector) (lam : R).


End FirstPick.

Section PureRelevance.
Variable q : Vector.

Lemma mmr_score_lambda_1 sel d :
  length (embedding d) = length q → mmr_score q 1 sel d = relevance q d.
Proof. intros Hd. unfold mmr_score. rewrite relevance_cosine by done. ring. Qed.

(** At [lambda_param = 1] the loop selects, in order, the first [n]
    documents of the pool sorted by relevance. *)
Lemma mmr_loop_sorted n : ∀ sel rem,
  same_dim q sel → same_dim q rem →
  ∃ iters rem',
    Retriever.mmr_loop q 1 n {| selected := sel; remaining := rem |}
    = Ok (iters, {| selected := sel ++ take n (sorted_by_relevance q rem);
                    remaining := rem' |}).
Proof.
  induction n as [|n IH]; intros sel rem Hsel Hrem.
  - exists 0%nat, rem. simpl. by rewrite app_nil_r.
  - destruct rem as [|c rem0].
    + exists 0%nat, []. simpl. by rewrite app_nil_r.
    + destruct (mmr_round_split q 1 sel (c :: rem0)) as (l1 & best & l2 & Heq & Hfm & Hround);
        [done | done | done |].
      assert (Hperm : c :: rem0 ≡ₚ best :: (l1 ++ l2)).
      { rewrite Heq. symmetry. apply Permutation_middle. }
      pose proof (same_dim_perm q _ _ Hperm Hrem) as Hdim.
      apply Forall_cons in Hdim as [Hbest Hrest].
      apply (first_max_ext _ (relevance q)) in Hfm.
      2:{ rewrite <- Heq. eapply Forall_impl; [exact Hrem |]. simpl.
          intros d Hd. by apply mmr_score_lambda_1. }
      destruct (IH (sel ++ [best]) (l1 ++ l2)) as (iters & rem' & Hloop).
      { apply Forall_app. split; [done |]. by constructor. }
      { done. }
      exists (S iters), rem'.
      cbn [Retriever.mmr_loop remaining]. rewrite Hround. simpl.
      rewrite Hloop. simpl. rewrite <- app_assoc. simpl.
      unfold sorted_by_relevance. rewrite Heq.
      by rewrite (stable_sort_desc_first_max _ _ _ _ Hfm).
Qed.
End PureRelevance.

(** On binary64 the product by [lambda_param] rounds, and two distinct
    relevances can get one score: at [lambda_param = 0.7] the second
    document is strictly more similar to the query than the first, and
    both get the same first-round score, so that [max] keeps the first. *)
Module Rounding.
Import PrimFloat.

Lemma scores_collapse :
  (Binary64._cosine_similarity Binary64.query Binary64.near1
   <? Binary64._cosine_similarity Binary64.query Binary64.near2)%float = true ∧
  (Binary64.first_round_score Binary64.lam07
     (Binary64._cosine_similarity Binary64.query Binary64.near1)
   =? Binary64.first_round_score Binary64.lam07
        (Binary64._cosine_similarity Binary64.query Binary64.near2))%float = true.
Proof. split; vm_compute; reflexivity. Qed.

(** At [lambda_param = 1.0] the score is the relevance itself. *)
Lemma score_at_lambda_1 :
  (Binary64.first_round_score 1
     (Binary64._cosine_similarity Binary64.query Binary64.near1)
   =? Binary64._cosine_similarity Binary64.query Binary64.near1)%float = true ∧
  (Binary64.first_round_score 1
     (Binary64._cosine_similarity Binary64.query Binary64.near2)
   =? Binary64._cosine_similarity Binary64.query Binary64.near2)%float = true.
Proof. split; vm_compute; reflexivity. Qed.
End Rounding.

(** * The claims *)




(** C2: on a pool whose embeddings have the dimension of the query, for
    every [lambda_param] and every non-negative [top_k], [_mmr_rerank]
    returns a list of length [min(top_k, len(candidates))]. *)
Theorem rerank_length (q : Vector) (lam : R) (cs : list Candidate) (top_k : Z) :
  same_dim q cs → (0 ≤ top_k)%Z →
  ∃ res, Retriever._mmr_rerank q lam cs top_k = Ok res ∧
         Z.of_nat (length res) = Z.min top_k (Z.of_nat (length cs)).
Proof.
  intros Hdim Hk.
  destruct (rerank_spec q lam cs top_k Hdim) as (res & rest & Hres & Hlen & _).
  exists res. split; [done |]. rewrite Hlen. unfold Py.range_len. lia.
Qed.

Lemma rerank_length_witness :
  ∃ res, Retriever._mmr_rerank [1; 0] (7/10) [docA; docC] 1 = Ok res ∧
         Z.of_nat (length res) = Z.min 1 (Z.of_nat (length [docA; docC])).
Proof.
  apply rerank_length; [| lia].
  repeat constructor.
Defined.

(** C3: at [lambda_param = 1], on a pool of the query's dimension,
    [_mmr_rerank] returns the first [top_k] documents of the pool sorted
    by descending similarity to the query with ties in input order; when
    [top_k] is at least the size of the pool this is the whole sorted
    pool.  The sorted pool is a permutation of the input, in descending
    order of relevance, and keeps the input order among documents of equal
    relevance. *)
Theorem rerank_lambda_1_is_stable_sort (q : Vector) (cs : list Candidate) (top_k : Z) :
  same_dim q cs → (0 ≤ top_k)%Z →
  Retriever._mmr_rerank q 1 cs top_k
  = Ok (take (Z.to_nat top_k) (sorted_by_relevance q cs)) ∧
  ((Z.of_nat (length cs) ≤ top_k)%Z →
   Retriever._mmr_rerank q 1 cs top_k = Ok (sorted_by_relevance q cs)) ∧
  sorted_by_relevance q cs ≡ₚ cs ∧
  StronglySorted (λ a b, relevance q b <= relevance q a) (sorted_by_relevance q cs) ∧
  (∀ v, filter (λ c, relevance q c = v) (sorted_by_relevance q cs)
        = filter (λ c, relevance q c = v) cs).
Proof.
  intros Hdim Hk.
  assert (Hlen : length (sorted_by_relevance q cs) = length cs).
  { unfold sorted_by_relevance. by rewrite stable_sort_desc_perm. }
  assert (Hres : Retriever._mmr_rerank q 1 cs top_k
                 = Ok (take (Z.to_nat top_k) (sorted_by_relevance q cs))).
  { destruct cs as [|c cs']; [by destruct (Z.to_nat top_k) |].
    unfold Retriever._mmr_rerank, Retriever.mmr_run.
    set (n := Py.range_len _).
    destruct (mmr_loop_sorted q n [] (c :: cs')) as (iters & rem' & Hloop);
      [constructor | done |].
    rewrite Hloop. simpl. f_equal.
    destruct (decide (top_k ≤ Z.of_nat (length (c :: cs')))%Z) as [Hle | Hgt].
    - unfold n, Py.range_len. by rewrite Z.min_l.
    - assert (Hn : n = length (c :: cs')) by (unfold n, Py.range_len; lia).
      rewrite Hn, !take_ge; [done | lia | lia]. }
  split; [done |]. split; [| split; [| split]].
  - intros Hall. rewrite Hres, take_ge; [done | lia].
  - apply stable_sort_desc_perm.
  - apply stable_sort_desc_sorted.
  - intros v. apply stable_sort_desc_stable.
Qed.

Lemma rerank_lambda_1_is_stable_sort_witness :
  Retriever._mmr_rerank [1; 0] 1 [docC; docA] 2
  = Ok (take (Z.to_nat 2) (sorted_by_relevance [1; 0] [docC; docA])) ∧
  ((Z.of_nat (length [docC; docA]) ≤ 2)%Z →
   Retriever._mmr_rerank [1; 0] 1 [docC; docA] 2
   = Ok (sorted_by_relevance [1; 0] [docC; docA])) ∧
  sorted_by_relevance [1; 0] [docC; docA] ≡ₚ [docC; docA] ∧
  StronglySorted (λ a b, relevance [1; 0] b <= relevance [1; 0] a)
                 (sorted_by_relevance [1; 0] [docC; docA]) ∧
  (∀ v, filter (λ c, relevance [1; 0] c = v) (sorted_by_relevance [1; 0] [docC; docA])
        = filter (λ c, relevance [1; 0] c = v) [docC; docA]).
Proof.
  apply (rerank_lambda_1_is_stable_sort [1; 0] [docC; docA] 2).
  - repeat constructor.
  - lia.
Defined.

(** C4: in a round on a non-empty [remaining], the selected document sits
    at a position [i] of [remaining] whose score is maximal, and every
    document before position [i] has a strictly smaller score: among the
    documents that attain the maximal score, the earliest is selected. *)
Theorem round_selects_earliest_maximum (q : Vector) (lam : R) (st : loop_state) :
  same_dim q (selected st) → same_dim q (remaining st) → remaining st ≠ [] →
  ∃ i best s_best,
    remaining st !! i = Some best ∧
    Retriever.mmr_entry q lam (selected st) best = Ok (best, s_best) ∧
    Retriever.mmr_round q lam st
    = Ok {| selected := selected st ++ [best]; remaining := delete i (remaining st) |} ∧
    ∀ j d s, remaining st !! j = Some d →
             Retriever.mmr_entry q lam (selected st) d = Ok (d, s) →
             s <= s_best ∧ ((j < i)%nat → s < s_best).
Proof.
  destruct st as [sel rem]. simpl. intros Hsel Hrem Hne.
  destruct (mmr_round_split q lam sel rem Hsel Hrem Hne)
    as (l1 & best & l2 & -> & [Hlt Hle] & Hround).
  unfold same_dim in Hrem.
  assert (Hbest : length (embedding best) = length q).
  { pose proof Hrem as Hrem'. apply Forall_app in Hrem' as [_ Hrem'].
    by apply Forall_cons in Hrem' as [? _]. }
  exists (length l1), best, (mmr_score q lam sel best).
  split; [apply list_lookup_middle; done |].
  split; [by apply mmr_entry_ok |].
  split; [by rewrite delete_middle |].
  intros j d s Hj Hentry.
  assert (Hd : length (embedding d) = length q).
  { rewrite Forall_forall in Hrem. apply Hrem. by eapply list_elem_of_lookup_2. }
  rewrite mmr_entry_ok in Hentry by done. injection Hentry as <-.
  rewrite Forall_forall in Hlt, Hle.
  destruct (decide (j < length l1)%nat) as [Hjl | Hjl].
  - rewrite lookup_app_l in Hj by done.
    apply list_elem_of_lookup_2 in Hj. specialize (Hlt _ Hj). split; [lra | done].
  - split; [| lia].
    rewrite lookup_app_r in Hj by lia.
    destruct (j - length l1)%nat as [|k] eqn:Hk; simpl in Hj.
    + injection Hj as <-. lra.
    + apply list_elem_of_lookup_2 in Hj. by apply Hle.
Qed.

Lemma round_selects_earliest_maximum_witness :
  ∃ i best s_best,
    [docC; docA] !! i = Some best ∧
    Retriever.mmr_entry [1; 0] 0 [] best = Ok (best, s_best) ∧
    Retriever.mmr_round [1; 0] 0 {| selected := []; remaining := [docC; docA] |}
    = Ok {| selected := [] ++ [best]; remaining := delete i [docC; docA] |} ∧
    ∀ j d s, [docC; docA] !! j = Some d →
             Retriever.mmr_entry [1; 0] 0 [] d = Ok (d, s) →
             s <= s_best ∧ ((j < i)%nat → s < s_best).
Proof.
  apply (round_selects_earliest_maximum [1; 0] 0
           {| selected := []; remaining := [docC; docA] |}).
  - constructor.
  - repeat constructor.
  - done.
Defined.

(** C5 (the code at the input where the claimed range fails): the
    similarity of [[1, 0]] and [[-1, 0]] is [-1], below the range
    [[0, 1]] announced by the docstring of [_cosine_similarity]. *)
Theorem cosine_similarity_opposite_vectors :
  Retriever._cosine_similarity [1; 0] [-1; 0] = Ok (-1) ∧ -1 < 0.
Proof.
  split; [| lra].
  rewrite cosine_similarity_ok by done. f_equal. apply cosine_e1_minus_e1.
Qed.

(** C6: the result of [_mmr_rerank] draws each of its elements from a
    distinct position of the input list: there is an injective map [f] of
    positions with [res[i] = candidates[f i]]; in particular a pool
    without repeated documents gives a result without repetition. *)
Theorem rerank_no_duplicates (q : Vector) (lam : R) (cs : list Candidate) (top_k : Z) :
  same_dim q cs →
  ∃ res, Retriever._mmr_rerank q lam cs top_k = Ok res ∧
         (∃ f : nat → nat, Inj (=) (=) f ∧
            ∀ i, (i < length res)%nat → res !! i = cs !! f i) ∧
         (NoDup cs → NoDup res).
Proof.
  intros Hdim.
  destruct (rerank_spec q lam cs top_k Hdim) as (res & rest & Hres & _ & Hperm).
  exists res. split; [done |]. split.
  - apply Permutation_inj in Hperm as [_ (f & Hinj & Hf)].
    exists f. split; [done |]. intros i Hi.
    rewrite <- Hf. by rewrite lookup_app_l.
  - intros Hnd. rewrite <- Hperm in Hnd. by apply NoDup_app in Hnd as [? _].
Qed.

Lemma rerank_no_duplicates_witness :
  ∃ res, Retriever._mmr_rerank [1; 0] (7/10) [docA; docC] 2 = Ok res ∧
         (∃ f : nat → nat, Inj (=) (=) f ∧
            ∀ i, (i < length res)%nat → res !! i = [docA; docC] !! f i) ∧
         (NoDup [docA; docC] → NoDup res).
Proof.
  apply rerank_no_duplicates. repeat constructor.
Defined.

(** C7: called on two vectors of different lengths, [_cosine_similarity]
    raises (the [ValueError] of [np.dot]) and returns no value. *)
Theorem cosine_similarity_length_mismatch (vec1 vec2 : Vector) :
  length vec1 ≠ length vec2 →
  (∃ msg, Retriever._cosine_similarity vec1 vec2 = Raise (ValueError msg)) ∧
  (∀ r, Retriever._cosine_similarity vec1 vec2 ≠ Ok r).
Proof.
  intros Hlen. rewrite cosine_similarity_mismatch by done.
  split; [by eexists | done].
Qed.

Lemma cosine_similarity_length_mismatch_witness :
  (∃ msg, Retriever._cosine_similarity [1; 0] [1; 0; 0] = Raise (ValueError msg)) ∧
  (∀ r, Retriever._cosine_similarity [1; 0] [1; 0; 0] ≠ Ok r).
Proof. apply cosine_similarity_length_mismatch. simpl. lia. Defined.

(** C8 (as the code behaves): [_mmr_rerank] validates neither argument.
    A negative [top_k] gives the empty list, and for every real
    [lambda_param], inside [[0, 1]] or not, a pool whose embeddings have
    the dimension of the query gives a result. *)
Theorem rerank_no_validation (q : Vector) (lam : R) (cs : list Candidate) (top_k : Z) :
  ((top_k < 0)%Z → Retriever._mmr_rerank q lam cs top_k = Ok []) ∧
  (same_dim q cs → ∃ res, Retriever._mmr_rerank q lam cs top_k = Ok res).
Proof.
  split.
  - apply rerank_negative_top_k.
  - intros Hdim.
    destruct (rerank_spec q lam cs top_k Hdim) as (res & _ & Hres & _).
    by exists res.
Qed.

Lemma rerank_no_validation_witness :
  Retriever._mmr_rerank [1; 0] 2 [docA; docC] (-3) = Ok [] ∧
  ∃ res, Retriever._mmr_rerank [1; 0] 2 [docA; docC] (-3) = Ok res.
Proof.
  destruct (rerank_no_validation [1; 0] 2 [docA; docC] (-3)) as [Hneg Hany].
  split.
  - apply Hneg. lia.
  - apply Hany. repeat constructor.
Defined.

(** C8 (the claim fails): with [top_k = -1], and with [lambda_param = 2],
    [_mmr_rerank] returns a list and raises nothing. *)
Lemma rerank_accepts_invalid_arguments :
  Retriever._mmr_rerank [1; 0] (1/2) [docA] (-1) = Ok [] ∧
  Retriever._mmr_rerank [1; 0] 2 [docA] 1 = Ok [docA].
Proof.
  split; [done |].
  destruct (rerank_spec [1; 0] 2 [docA] 1) as (res & rest & Hres & Hlen & Hperm).
  { repeat constructor. }
  rewrite Hres. f_equal.
  destruct res as [|r [|r' res']]; simplify_eq/=.
  apply Permutation_length in Hperm as Hl. destruct rest; simplify_eq/=.
  by apply Permutation_singleton_l in Hperm as [= ->].
Qed.

(** C9: when the embedding provider raises on the query,
    [semantic_search] raises the same exception, its only external call
    is the embedding call, and the index is not queried. *)
Theorem embedding_failure_skips_index
    (generate_embedding : string → result Vector)
    (aggregate : Pipeline → result (list Document)) (TOP_K : Z)
    (query : string) (filters : option (gmap string string)) (top_k : option Z)
    (use_mmr : bool) (lam : R) (log : list call) (e : exn) :
  generate_embedding query = Raise e →
  Facade.semantic_search generate_embedding aggregate TOP_K
    query filters top_k use_mmr lam log
  = (log ++ [GenerateEmbedding query], Raise e) ∧
  (¬ index_invoked log →
   ¬ index_invoked (fst (Facade.semantic_search generate_embedding aggregate TOP_K
                           query filters top_k use_mmr lam log))).
Proof.
  intros Hraise.
  assert (Hrun : Facade.semantic_search generate_embedding aggregate TOP_K
                   query filters top_k use_mmr lam log
                 = (log ++ [GenerateEmbedding query], Raise e)).
  { unfold Facade.semantic_search, mbind, IO_bind, Facade.call_generate_embedding.
    by rewrite Hraise. }
  split; [done |].
  rewrite Hrun. simpl. intros Hlog [p Hp]. apply Hlog. exists p.
  apply elem_of_app in Hp as [Hp | Hp]; [done |].
  by apply list_elem_of_singleton in Hp.
Qed.

Lemma embedding_failure_skips_index_witness :
  Facade.semantic_search
    (λ _, Raise (ExternalError "embedding provider" "unavailable")) (λ _, Ok [])
    5 "pix" None None true (7/10) []
  = ([] ++ [GenerateEmbedding "pix"],
     Raise (ExternalError "embedding provider" "unavailable")) ∧
  (¬ index_invoked [] →
   ¬ index_invoked
       (fst (Facade.semantic_search
               (λ _, Raise (ExternalError "embedding provider" "unavailable"))
               (λ _, Ok []) 5 "pix" None None true (7/10) []))).
Proof.
  apply (embedding_failure_skips_index
           (λ _, Raise (ExternalError "embedding provider" "unavailable"))
           (λ _, Ok []) 5 "pix" None None true (7/10) []).
  reflexivity.
Defined.

(** C10: the selection loop ends on every input.  A round that completes
    removes exactly one document from [remaining] (and appends one to
    [selected]); the loop either raises or completes after a number of
    rounds that is at most the length of [range(min(top_k, len(candidates)))],
    that is [max(0, min(top_k, len(candidates)))], having removed one
    document per round; on a pool of the query's dimension it completes. *)
Theorem rerank_loop_terminates (q : Vector) (lam : R) (cs : list Candidate) (top_k : Z) :
  (∀ st st', Retriever.mmr_round q lam st = Ok st' →
     length (remaining st) = S (length (remaining st')) ∧
     length (selected st') = S (length (selected st))) ∧
  ((∃ e, Retriever.mmr_run q lam cs top_k = Raise e) ∨
   (∃ iters st, Retriever.mmr_run q lam cs top_k = Ok (iters, st) ∧
      (Z.of_nat iters ≤ Z.max 0 (Z.min top_k (Z.of_nat (length cs))))%Z ∧
      (iters + length (remaining st) = length cs)%nat)) ∧
  (same_dim q cs →
   ∃ iters st, Retriever.mmr_run q lam cs top_k = Ok (iters, st) ∧
      Z.of_nat iters = Z.max 0 (Z.min top_k (Z.of_nat (length cs)))).
Proof.
  split; [apply mmr_round_length |]. split.
  - destruct (Retriever.mmr_run q lam cs top_k) as [[iters st]|e] eqn:Hrun.
    + right. exists iters, st. split; [done |].
      apply mmr_loop_bound in Hrun as (Hle & Hrem & _).
      unfold Py.range_len in Hle. simpl in Hrem. split; lia.
    + left. by exists e.
  - intros Hdim. destruct (mmr_run_spec q lam cs top_k Hdim) as (st & Hrun & _).
    eexists _, st. split; [exact Hrun |]. unfold Py.range_len. lia.
Qed.

Lemma rerank_loop_terminates_witness :
  ∃ iters st, Retriever.mmr_run [1; 0] (7/10) [docA; docC] 5 = Ok (iters, st) ∧
     Z.of_nat iters = Z.max 0 (Z.min 5 (Z.of_nat (length [docA; docC]))).
Proof.
  apply (rerank_loop_terminates [1; 0] (7/10) [docA; docC] 5).
  repeat constructor.
Defined.

(** * Further properties of the similarity primitive *)

Section SimilarityFacts.
Lemma sum_prod_comm a : ∀ b, Np.sum_prod a b = Np.sum_prod b a.
Proof.
  induction a as [|x a IH]; intros [|y b]; simpl; try done.
  rewrite IH. lra.
Qed.

Lemma cosine_comm a b : cosine a b = cosine b a.
Proof.
  unfold cosine. rewrite (sum_prod_comm a b), orb_comm.
  by rewrite (Rmult_comm (Np.linalg_norm a)).
Qed.

Lemma norm_of_zeros a : Forall (λ x, x = 0) a → Np.linalg_norm a = 0.
Proof.
  intros Hz. unfold Np.linalg_norm.
  replace (Np.sum_prod a a) with 0; [apply sqrt_0 |].
  induction Hz as [|x a -> _ IH]; simpl; [done |]. rewrite <- IH. lra.
Qed.

End SimilarityFacts.

(** X1: the similarity of two vectors of one length does not depend on
    the order of the arguments. *)
Theorem cosine_similarity_symmetric (vec1 vec2 : Vector) :
  length vec1 = length vec2 →
  Retriever._cosine_similarity vec1 vec2 = Retriever._cosine_similarity vec2 vec1.
Proof.
  intros Hlen. rewrite !cosine_similarity_ok by done. f_equal. apply cosine_comm.
Qed.

Lemma cosine_similarity_symmetric_witness :
  Retriever._cosine_similarity [1; 0] [0; 1] = Retriever._cosine_similarity [0; 1] [1; 0].
Proof. apply cosine_similarity_symmetric. reflexivity. Defined.

(** X2: when one of two vectors of one length has only zero components,
    the similarity is 0 and nothing is raised. *)
Theorem cosine_similarity_zero_vector (vec1 vec2 : Vector) :
  length vec1 = length vec2 →
  Forall (λ x, x = 0) vec1 ∨ Forall (λ x, x = 0) vec2 →
  Retriever._cosine_similarity vec1 vec2 = Ok 0.
Proof.
  intros Hlen Hz. rewrite cosine_similarity_ok by done. f_equal.
  apply cosine_zero_norm. destruct Hz as [Hz | Hz]; [left | right]; by apply norm_of_zeros.
Qed.

Lemma cosine_similarity_zero_vector_witness :
  Retriever._cosine_similarity [0; 0] [1; 0] = Ok 0.
Proof.
  apply cosine_similarity_zero_vector; [reflexivity |].
  left. by repeat constructor.
Defined.

(** * Further properties of the re-ranking loop *)

Section RerankMore.
Variables (q : Vector) (lam : R).

Lemma first_bad_dimension cs :
  Exists (λ c, length (embedding c) ≠ length q) cs →
  ∃ l1 x l2, cs = l1 ++ x :: l2 ∧ same_dim q l1 ∧ length (embedding x) ≠ length q.
Proof.
  induction cs as [|c cs IH]; intros Hex; [by apply Exists_nil in Hex |].
  destruct (decide (length (embedding c) = length q)) as [Hc | Hc].
  - apply Exists_cons in Hex as [Hex | Hex]; [done |].
    destruct (IH Hex) as (l1 & x & l2 & -> & Hl1 & Hx).
    exists (c :: l1), x, l2. split; [done |]. split; [by constructor | done].
  - exists [], c, cs. split; [done |]. split; [constructor | done].
Qed.

Lemma mmr_loop_empty n sel :
  Retriever.mmr_loop q lam n {| selected := sel; remaining := [] |}
  = Ok (0%nat, {| selected := sel; remaining := [] |}).
Proof. by destruct n. Qed.

(** A shorter run selects a prefix of what a longer run selects. *)
Lemma mmr_loop_prefix n : ∀ m sel rem,
  (n ≤ m)%nat → same_dim q sel → same_dim q rem →
  ∃ i_n s_n r_n i_m s_m r_m,
    Retriever.mmr_loop q lam n {| selected := sel; remaining := rem |}
    = Ok (i_n, {| selected := sel ++ s_n; remaining := r_n |}) ∧
    Retriever.mmr_loop q lam m {| selected := sel; remaining := rem |}
    = Ok (i_m, {| selected := sel ++ s_m; remaining := r_m |}) ∧
    s_n = take n s_m ∧ (length s_m ≤ length rem)%nat.
Proof.
  induction n as [|n IH]; intros m sel rem Hnm Hsel Hrem.
  - destruct (mmr_loop_spec q lam m sel rem Hsel Hrem) as (s_m & r_m & Hm & Hlen & _).
    exists 0%nat, [], rem, (m `min` length rem)%nat, s_m, r_m.
    simpl. rewrite app_nil_r. repeat split; [done | lia].
  - destruct m as [|m]; [lia |].
    destruct rem as [|c rem0].
    + exists 0%nat, [], [], 0%nat, [], []. simpl. by rewrite app_nil_r.
    + destruct (mmr_round_split q lam sel (c :: rem0)) as (l1 & best & l2 & Heq & _ & Hround);
        [done | done | done |].
      assert (Hperm : c :: rem0 ≡ₚ best :: (l1 ++ l2)).
      { rewrite Heq. symmetry. apply Permutation_middle. }
      pose proof (same_dim_perm q _ _ Hperm Hrem) as Hdim.
      apply Forall_cons in Hdim as [Hbest Hrest].
      destruct (IH m (sel ++ [best]) (l1 ++ l2)) as (i_n & s_n & r_n & i_m & s_m & r_m & Hn & Hm & Htake & Hlen).
      { lia. }
      { apply Forall_app. split; [done |]. by constructor. }
      { done. }
      exists (S i_n), (best :: s_n), r_n, (S i_m), (best :: s_m), r_m.
      cbn [Retriever.mmr_loop remaining]. rewrite Hround. simpl.
      rewrite Hn, Hm. simpl. rewrite <- !app_assoc. simpl.
      repeat split; [by rewrite Htake |].
      apply Permutation_length in Hperm. simpl in Hperm. lia.
Qed.
End RerankMore.

Lemma rerank_bad_dimension (q : Vector) (lam : R) (cs : list Candidate) (top_k : Z) :
  (1 ≤ top_k)%Z →
  Exists (λ c, length (embedding c) ≠ length q) cs →
  Retriever._mmr_rerank q lam cs top_k = Raise (ValueError "shapes not aligned").
Proof.
  intros Hk Hex.
  destruct (first_bad_dimension q cs Hex) as (l1 & x & l2 & -> & Hl1 & Hx).
  unfold Retriever._mmr_rerank, Retriever.mmr_run.
  destruct (Py.range_len _) as [|n] eqn:Hn.
  { unfold Py.range_len in Hn. rewrite length_app in Hn. simpl in Hn. lia. }
  assert (Hround : Retriever.mmr_round q lam
                     {| selected := []; remaining := l1 ++ x :: l2 |}
                   = Raise (ValueError "shapes not aligned")).
  { unfold Retriever.mmr_round. simpl.
    rewrite (for_each_raise _ l1 l2 x (ValueError "shapes not aligned")); [done | |].
    - eapply Forall_impl; [exact Hl1 |]. simpl. intros d Hd.
      eexists. apply mmr_entry_ok; [constructor | done].
    - unfold Retriever.mmr_entry.
      rewrite cosine_similarity_mismatch; [done | congruence]. }
  cbn [Retriever.mmr_loop remaining]. rewrite Hround.
  by destruct l1.
Qed.

(** X7: with [top_k >= 1], a pool that holds a document whose embedding
    has not the dimension of the query makes [_mmr_rerank] raise the
    [ValueError] of the similarity; no partial result is returned. *)
Theorem rerank_dimension_mismatch_raises
    (q : Vector) (lam : R) (cs : list Candidate) (top_k : Z) :
  (1 ≤ top_k)%Z →
  Exists (λ c, length (embedding c) ≠ length q) cs →
  ∃ msg, Retriever._mmr_rerank q lam cs top_k = Raise (ValueError msg).
Proof.
  intros Hk Hex. eexists. by apply rerank_bad_dimension.
Qed.

Lemma rerank_dimension_mismatch_raises_witness :
  ∃ msg, Retriever._mmr_rerank [1; 0] (7/10) [docA; doc "D" [1; 0; 0] 1] 1
         = Raise (ValueError msg).
Proof.
  apply rerank_dimension_mismatch_raises; [lia |].
  apply Exists_cons_tl, Exists_cons_hd. simpl. lia.
Defined.

(** X8: when [top_k] is at least the size of a pool of the query's
    dimension, [_mmr_rerank] returns every document of the pool: the
    result is a rearrangement of the input. *)
Theorem rerank_returns_whole_pool
    (q : Vector) (lam : R) (cs : list Candidate) (top_k : Z) :
  same_dim q cs → (Z.of_nat (length cs) ≤ top_k)%Z →
  ∃ res, Retriever._mmr_rerank q lam cs top_k = Ok res ∧ res ≡ₚ cs.
Proof.
  intros Hdim Hk.
  destruct (rerank_spec q lam cs top_k Hdim) as (res & rest & Hres & Hlen & Hperm).
  exists res. split; [done |].
  assert (Hrest : rest = []).
  { apply Permutation_length in Hperm as Hl. rewrite length_app in Hl.
    unfold Py.range_len in Hlen. apply nil_length_inv. lia. }
  by rewrite Hrest, app_nil_r in Hperm.
Qed.

Lemma rerank_returns_whole_pool_witness :
  ∃ res, Retriever._mmr_rerank [1; 0] (7/10) [docC; docA] 6 = Ok res ∧
         res ≡ₚ [docC; docA].
Proof.
  apply rerank_returns_whole_pool; [repeat constructor | simpl; lia].
Defined.

(** X9: asking for fewer documents gives a prefix of what asking for more
    gives: for [0 <= k <= k'], the result for [k] is the first [k]
    elements of the result for [k']. *)
Theorem rerank_prefix_of_larger_top_k
    (q : Vector) (lam : R) (cs : list Candidate) (k k' : Z) :
  same_dim q cs → (0 ≤ k ≤ k')%Z →
  ∃ res', Retriever._mmr_rerank q lam cs k' = Ok res' ∧
          Retriever._mmr_rerank q lam cs k = Ok (take (Z.to_nat k) res').
Proof.
  intros Hdim Hk. destruct cs as [|c cs'].
  { exists []. simpl. by rewrite take_nil. }
  unfold Retriever._mmr_rerank, Retriever.mmr_run.
  set (len := length (c :: cs')).
  set (n := Py.range_len (Z.min k (Z.of_nat len))).
  set (m := Py.range_len (Z.min k' (Z.of_nat len))).
  assert (Hnm : (n ≤ m)%nat) by (unfold n, m, Py.range_len; lia).
  destruct (mmr_loop_prefix q lam n m [] (c :: cs') Hnm)
    as (i_n & s_n & r_n & i_m & s_m & r_m & Hn & Hm & Htake & Hlen);
    [constructor | done |].
  exists s_m. rewrite Hn, Hm. simpl. split; [done |]. f_equal.
  rewrite Htake. fold len in Hlen.
  destruct (decide (k ≤ Z.of_nat len)%Z) as [Hle | Hgt].
  - unfold n, Py.range_len. by rewrite Z.min_l.
  - rewrite !take_ge; [done | lia |]. unfold n, Py.range_len. lia.
Qed.

Lemma rerank_prefix_of_larger_top_k_witness :
  ∃ res', Retriever._mmr_rerank [1; 0] (7/10) [docC; docA] 2 = Ok res' ∧
          Retriever._mmr_rerank [1; 0] (7/10) [docC; docA] 1
          = Ok (take (Z.to_nat 1) res').
Proof.
  apply rerank_prefix_of_larger_top_k; [repeat constructor | lia].
Defined.

Section Greedy.
Variables (q : Vector) (lam : R).

(** Every selected document scored, in its round, at least as high as
    every document selected later or never selected. *)
Lemma mmr_loop_greedy n : ∀ sel rem,
  same_dim q sel → same_dim q rem →
  ∃ iters sel' rem',
    Retriever.mmr_loop q lam n {| selected := sel; remaining := rem |}
    = Ok (iters, {| selected := sel ++ sel'; remaining := rem' |}) ∧
    sel' ++ rem' ≡ₚ rem ∧
    ∀ i r d, sel' !! i = Some r → d ∈ drop (S i) sel' ++ rem' →
             mmr_score q lam (sel ++ take i sel') d
             <= mmr_score q lam (sel ++ take i sel') r.
Proof.
  induction n as [|n IH]; intros sel rem Hsel Hrem.
  - exists 0%nat, [], rem. simpl. rewrite app_nil_r. by repeat split.
  - destruct rem as [|c rem0].
    + exists 0%nat, [], []. simpl. rewrite app_nil_r. by repeat split.
    + destruct (mmr_round_split q lam sel (c :: rem0))
        as (l1 & best & l2 & Heq & [Hlt Hle] & Hround); [done | done | done |].
      assert (Hperm : c :: rem0 ≡ₚ best :: (l1 ++ l2)).
      { rewrite Heq. symmetry. apply Permutation_middle. }
      pose proof (same_dim_perm q _ _ Hperm Hrem) as Hdim.
      apply Forall_cons in Hdim as [Hbest Hrest].
      destruct (IH (sel ++ [best]) (l1 ++ l2)) as (iters & sel'' & rem'' & Hloop & Hp & Hgreedy).
      { apply Forall_app. split; [done |]. by constructor. }
      { done. }
      exists (S iters), (best :: sel''), rem''.
      split; [| split].
      * cbn [Retriever.mmr_loop remaining]. rewrite Hround. simpl.
        rewrite Hloop. simpl. by rewrite <- app_assoc.
      * rewrite Hperm. simpl. by rewrite Hp.
      * intros [|i] r d Hr Hd; simpl in Hr, Hd.
        -- injection Hr as <-. rewrite drop_0, Hp in Hd. simpl. rewrite app_nil_r.
           rewrite Forall_forall in Hlt, Hle.
           apply elem_of_app in Hd as [Hd | Hd]; [| by apply Hle].
           specialize (Hlt _ Hd). lra.
        -- simpl. specialize (Hgreedy i r d Hr Hd).
           by rewrite <- app_assoc in Hgreedy.
Qed.
End Greedy.

(** X10: the result is greedy in every position: scored against the
    documents selected before it, the document at position [i] scores at
    least as high as every document selected after it and every document
    left out. *)
Theorem rerank_is_greedy (q : Vector) (lam : R) (cs : list Candidate) (top_k : Z) :
  same_dim q cs →
  ∃ res rest,
    Retriever._mmr_rerank q lam cs top_k = Ok res ∧
    res ++ rest ≡ₚ cs ∧
    ∀ i r d s_r s_d,
      res !! i = Some r → d ∈ drop (S i) res ++ rest →
      Retriever.mmr_entry q lam (take i res) r = Ok (r, s_r) →
      Retriever.mmr_entry q lam (take i res) d = Ok (d, s_d) →
      s_d <= s_r.
Proof.
  intros Hdim. destruct cs as [|c cs'].
  { exists [], []. simpl. repeat split; [done |]. intros i r d s_r s_d Hr. by destruct i. }
  unfold Retriever._mmr_rerank, Retriever.mmr_run.
  destruct (mmr_loop_greedy q lam
              (Py.range_len (Z.min top_k (Z.of_nat (length (c :: cs'))))) [] (c :: cs'))
    as (iters & res & rest & Hloop & Hperm & Hgreedy); [constructor | done |].
  exists res, rest. rewrite Hloop. simpl. repeat split; [done |].
  intros i r d s_r s_d Hr Hd Hsr Hsd.
  assert (Hall : same_dim q (res ++ rest)) by (by apply (same_dim_perm q (c :: cs'))).
  unfold same_dim in Hall. rewrite Forall_forall in Hall.
  assert (Hpre : same_dim q (take i res)).
  { apply Forall_forall. intros x Hx. apply Hall, elem_of_app. left.
    by apply (subseteq_take i res). }
  rewrite mmr_entry_ok in Hsr, Hsd; try done.
  - injection Hsr as <-. injection Hsd as <-. by apply (Hgreedy i).
  - apply Hall. apply elem_of_app in Hd as [Hd | Hd]; apply elem_of_app; [left | by right].
    by apply (subseteq_drop (S i) res).
  - apply Hall, elem_of_app. left. by eapply list_elem_of_lookup_2.
Qed.

Lemma rerank_is_greedy_witness :
  ∃ res rest,
    Retriever._mmr_rerank [1; 0] (7/10) [docC; docA] 1 = Ok res ∧
    res ++ rest ≡ₚ [docC; docA] ∧
    ∀ i r d s_r s_d,
      res !! i = Some r → d ∈ drop (S i) res ++ rest →
      Retriever.mmr_entry [1; 0] (7/10) (take i res) r = Ok (r, s_r) →
      Retriever.mmr_entry [1; 0] (7/10) (take i res) d = Ok (d, s_d) →
      s_d <= s_r.
Proof. apply rerank_is_greedy. repeat constructor. Defined.

Section EmbeddingOnly.
Variables (q : Vector) (lam : R).
Variable f : Candidate → Candidate.
Hypothesis f_embedding : ∀ c, embedding (f c) = embedding c.

Lemma same_dim_map cs : same_dim q cs → same_dim q (map f cs).
Proof.
  intros H. apply Forall_map. eapply Forall_impl; [exact H |].
  simpl. intros c Hc. by rewrite f_embedding.
Qed.

Lemma mmr_score_map sel d :
  mmr_score q lam (map f sel) (f d) = mmr_score q lam sel d.
Proof.
  unfold mmr_score, penalty. rewrite f_embedding.
  destruct sel as [|s sel']; [done |]. simpl.
  rewrite f_embedding, map_map.
  do 3 f_equal. apply map_ext. intros s'. by rewrite f_embedding.
Qed.

Lemma first_max_map sel l1 x l2 :
  first_max (mmr_score q lam sel) l1 x l2 →
  first_max (mmr_score q lam (map f sel)) (map f l1) (f x) (map f l2).
Proof.
  intros [Hlt Hle]. split; apply Forall_map.
  - eapply Forall_impl; [exact Hlt |]. simpl. intros y Hy. by rewrite !mmr_score_map.
  - eapply Forall_impl; [exact Hle |]. simpl. intros y Hy. by rewrite !mmr_score_map.
Qed.

Lemma mmr_loop_map n : ∀ sel rem,
  same_dim q sel → same_dim q rem →
  Retriever.mmr_loop q lam n {| selected := map f sel; remaining := map f rem |}
  = (λ r, (fst r, map_state f (snd r)))
      <$> Retriever.mmr_loop q lam n {| selected := sel; remaining := rem |}.
Proof.
  induction n as [|n IH]; intros sel rem Hsel Hrem; [done |].
  destruct rem as [|c rem0]; [done |].
  destruct (mmr_round_split q lam sel (c :: rem0))
    as (l1 & best & l2 & Heq & Hfm & Hround); [done | done | done |].
  destruct (mmr_round_split q lam (map f sel) (map f (c :: rem0)))
    as (l1' & best' & l2' & Heq' & Hfm' & Hround');
    [by apply same_dim_map | by apply same_dim_map | done |].
  assert (Hsplit : l1' ++ best' :: l2' = map f l1 ++ f best :: map f l2).
  { rewrite <- Heq', Heq, map_app. done. }
  destruct (first_max_unique _ _ _ _ _ _ _ Hsplit Hfm' (first_max_map _ _ _ _ Hfm))
    as (-> & -> & ->).
  assert (Hperm : c :: rem0 ≡ₚ best :: (l1 ++ l2)).
  { rewrite Heq. symmetry. apply Permutation_middle. }
  pose proof (same_dim_perm q _ _ Hperm Hrem) as Hdim.
  apply Forall_cons in Hdim as [Hbest Hrest].
  cbn [Retriever.mmr_loop remaining map]. simpl in Hround'.
  rewrite Hround, Hround'. simpl.
  replace (map f sel ++ [f best]) with (map f (sel ++ [best])) by (by rewrite map_app).
  rewrite <- map_app, IH; [| | done].
  - by destruct (Retriever.mmr_loop q lam n _) as [[k st]|].
  - apply Forall_app. split; [done |]. by constructor.
Qed.
End EmbeddingOnly.

(** X11: the ranking reads nothing of a document but its embedding.
    Rewriting the other fields of every document (content, metadata, the
    score given by the index, the identifier) by any function [f] that
    keeps the embedding gives the same selection in the same order, with
    [f] applied. *)
Theorem rerank_depends_on_embeddings_only
    (q : Vector) (lam : R) (f : Candidate → Candidate)
    (cs : list Candidate) (top_k : Z) :
  (∀ c, embedding (f c) = embedding c) → same_dim q cs →
  ∃ res, Retriever._mmr_rerank q lam cs top_k = Ok res ∧
         Retriever._mmr_rerank q lam (map f cs) top_k = Ok (map f res).
Proof.
  intros Hf Hdim.
  destruct (rerank_spec q lam cs top_k Hdim) as (res & _ & Hres & _).
  exists res. split; [done |].
  destruct cs as [|c cs']; [by injection Hres as <- |].
  assert (Hrun : Retriever.mmr_run q lam (map f (c :: cs')) top_k
                 = (λ r, (fst r, map_state f (snd r)))
                     <$> Retriever.mmr_run q lam (c :: cs') top_k).
  { unfold Retriever.mmr_run. rewrite length_map.
    apply (mmr_loop_map q lam f Hf _ [] (c :: cs')); [constructor | done]. }
  change (Retriever._mmr_rerank q lam (map f (c :: cs')) top_k)
    with (r ← Retriever.mmr_run q lam (map f (c :: cs')) top_k; Ok (selected (snd r))).
  change (Retriever._mmr_rerank q lam (c :: cs') top_k)
    with (r ← Retriever.mmr_run q lam (c :: cs') top_k; Ok (selected (snd r))) in Hres.
  rewrite Hrun.
  destruct (Retriever.mmr_run q lam (c :: cs') top_k) as [[k st]|]; simpl in *; [| done].
  by injection Hres as <-.
Qed.

Lemma rerank_depends_on_embeddings_only_witness :
  ∃ res, Retriever._mmr_rerank [1; 0] (7/10) [docC; docA] 2 = Ok res ∧
         Retriever._mmr_rerank [1; 0] (7/10)
           (map (λ c, doc (_id c) (embedding c) 0) [docC; docA]) 2
         = Ok (map (λ c, doc (_id c) (embedding c) 0) res).
Proof.
  apply rerank_depends_on_embeddings_only; [done | repeat constructor].
Defined.

(** * Further properties of the retrieval facade *)

Section FacadeFacts.
Variable generate_embedding : string → result Vector.
Variable aggregate : Pipeline → result (list Document).
Variable TOP_K : Z.

(** What [semantic_search] does once the query is embedded. *)
Lemma semantic_search_embedded query filters top_k use_mmr lam log v :
  generate_embedding query = Ok v →
  Facade.semantic_search generate_embedding aggregate TOP_K
    query filters top_k use_mmr lam log
  = let k := default TOP_K top_k in
    let p := sent_pipeline v filters k use_mmr in
    (log ++ [GenerateEmbedding query; Aggregate p],
     docs ← aggregate p;
     let candidates := map Facade.to_candidate docs in
     results ←
       (if use_mmr && bool_decide (0 < length candidates)%nat
        then Retriever._mmr_rerank v lam candidates k
        else Ok (Py.slice_to candidates k));
     Ok (map Facade.pop_embedding results)).
Proof.
  intros Hv.
  unfold Facade.semantic_search, mbind, IO_bind, Facade.call_generate_embedding,
    Facade.call_aggregate, lift, mret, IO_ret.
  rewrite Hv. cbn zeta. fold (sent_pipeline v filters (default TOP_K top_k) use_mmr).
  rewrite <- app_assoc. simpl.
  destruct (aggregate _) as [docs|e]; simpl; [| done].
  by destruct (if use_mmr && _ then _ else _).
Qed.
End FacadeFacts.

(** X12: when the query is embedded and the index call raises,
    [semantic_search] raises the same exception, after exactly the
    embedding call and the index call. *)
Theorem index_failure_propagates
    (generate_embedding : string → result Vector)
    (aggregate : Pipeline → result (list Document)) (TOP_K : Z)
    (query : string) (filters : option (gmap string string)) (top_k : option Z)
    (use_mmr : bool) (lam : R) (log : list call) (v : Vector) (e : exn) :
  generate_embedding query = Ok v →
  aggregate (sent_pipeline v filters (default TOP_K top_k) use_mmr) = Raise e →
  Facade.semantic_search generate_embedding aggregate TOP_K
    query filters top_k use_mmr lam log
  = (log ++ [GenerateEmbedding query;
             Aggregate (sent_pipeline v filters (default TOP_K top_k) use_mmr)],
     Raise e).
Proof.
  intros Hv He. rewrite (semantic_search_embedded _ _ _ _ _ _ _ _ _ v Hv).
  cbn zeta. by rewrite He.
Qed.

Lemma index_failure_propagates_witness :
  Facade.semantic_search (λ _, Ok [1; 0])
    (λ _, Raise (ExternalError "vector index" "unavailable")) 5
    "pix" None None true (7/10) []
  = ([] ++ [GenerateEmbedding "pix";
            Aggregate (sent_pipeline [1; 0] None (default 5%Z None) true)],
     Raise (ExternalError "vector index" "unavailable")).
Proof.
  apply (index_failure_propagates (λ _, Ok [1; 0])
           (λ _, Raise (ExternalError "vector index" "unavailable")) 5
           "pix" None None true (7/10) [] [1; 0]); reflexivity.
Defined.

(** X13: once the query is embedded, [semantic_search] makes exactly two
    external calls, the embedding call and then one index call, whatever
    the index answers.  The index is asked with the query embedding,
    100 candidates, a limit of three times [top_k] under MMR and of
    [top_k] otherwise ([TOP_K] when [top_k] is not given), and a [$match]
    stage only for a non-empty filter. *)
Theorem semantic_search_call_protocol
    (generate_embedding : string → result Vector)
    (aggregate : Pipeline → result (list Document)) (TOP_K : Z)
    (query : string) (filters : option (gmap string string)) (top_k : option Z)
    (use_mmr : bool) (lam : R) (log : list call) (v : Vector) :
  generate_embedding query = Ok v →
  ∃ p,
    fst (Facade.semantic_search generate_embedding aggregate TOP_K
           query filters top_k use_mmr lam log)
    = log ++ [GenerateEmbedding query; Aggregate p] ∧
    queryVector p = v ∧
    numCandidates p = 100%Z ∧
    limit p = (if use_mmr then 3 * default TOP_K top_k else default TOP_K top_k)%Z ∧
    match_stage p = (match filters with
                     | Some f => if decide (f = ∅) then None else Some f
                     | None => None
                     end).
Proof.
  intros Hv. exists (sent_pipeline v filters (default TOP_K top_k) use_mmr).
  rewrite (semantic_search_embedded _ _ _ _ _ _ _ _ _ v Hv).
  repeat split. simpl. destruct use_mmr; [lia | done].
Qed.

Lemma semantic_search_call_protocol_witness :
  ∃ p,
    fst (Facade.semantic_search (λ _, Ok [1; 0]) (λ _, Ok []) 5
           "pix" (Some ∅) (Some 4%Z) true (7/10) [])
    = [] ++ [GenerateEmbedding "pix"; Aggregate p] ∧
    queryVector p = [1; 0] ∧
    numCandidates p = 100%Z ∧
    limit p = (if true then 3 * default 5%Z (Some 4%Z) else default 5%Z (Some 4%Z))%Z ∧
    match_stage p = (match Some (∅ : gmap string string) with
                     | Some f => if decide (f = ∅) then None else Some f
                     | None => None
                     end).
Proof.
  exact (semantic_search_call_protocol (λ _, Ok [1; 0]) (λ _, Ok []) 5
           "pix" (Some ∅) (Some 4%Z) true (7/10) [] [1; 0] eq_refl).
Defined.

(** X14: when the index returns no document, [semantic_search] returns
    the empty list and raises nothing, with or without MMR and for every
    [top_k]. *)
Theorem semantic_search_empty_pool
    (generate_embedding : string → result Vector)
    (aggregate : Pipeline → result (list Document)) (TOP_K : Z)
    (query : string) (filters : option (gmap string string)) (top_k : option Z)
    (use_mmr : bool) (lam : R) (log : list call) (v : Vector) :
  generate_embedding query = Ok v →
  aggregate (sent_pipeline v filters (default TOP_K top_k) use_mmr) = Ok [] →
  snd (Facade.semantic_search generate_embedding aggregate TOP_K
         query filters top_k use_mmr lam log) = Ok [].
Proof.
  intros Hv Hd. rewrite (semantic_search_embedded _ _ _ _ _ _ _ _ _ v Hv).
  cbn zeta. rewrite Hd. simpl. rewrite andb_false_r. simpl.
  unfold Py.slice_to. destruct (0 <=? _)%Z; by rewrite take_nil.
Qed.

Lemma semantic_search_empty_pool_witness :
  snd (Facade.semantic_search (λ _, Ok [1; 0]) (λ _, Ok []) 5
         "pix" None None true (7/10) []) = Ok [].
Proof.
  apply (semantic_search_empty_pool (λ _, Ok [1; 0]) (λ _, Ok []) 5
           "pix" None None true (7/10) [] [1; 0]); reflexivity.
Defined.

(** X15: without MMR and for a non-negative [top_k], [semantic_search]
    returns the first [top_k] documents of the index answer, in the order
    of the index, each without its embedding and with the index score as
    [similarity] (0 when the index gave none). *)
Theorem semantic_search_without_mmr
    (generate_embedding : string → result Vector)
    (aggregate : Pipeline → result (list Document)) (TOP_K : Z)
    (query : string) (filters : option (gmap string string)) (top_k : option Z)
    (lam : R) (log : list call) (v : Vector) (docs : list Document) :
  generate_embedding query = Ok v →
  aggregate (sent_pipeline v filters (default TOP_K top_k) false) = Ok docs →
  (0 ≤ default TOP_K top_k)%Z →
  snd (Facade.semantic_search generate_embedding aggregate TOP_K
         query filters top_k false lam log)
  = Ok (map (λ d, {| res_content := doc_content d;
                     res_metadata := doc_metadata d;
                     res_similarity := default 0 (doc_score d);
                     res_id := doc_id d |})
            (take (Z.to_nat (default TOP_K top_k)) docs)).
Proof.
  intros Hv Hd Hk. rewrite (semantic_search_embedded _ _ _ _ _ _ _ _ _ v Hv).
  cbn zeta. rewrite Hd. simpl. f_equal. unfold Py.slice_to.
  apply Z.leb_le in Hk. rewrite Hk.
  by rewrite firstn_map, map_map.
Qed.

Lemma semantic_search_without_mmr_witness :
  snd (Facade.semantic_search (λ _, Ok [1; 0])
         (λ _, Ok [mkDocument "a" ∅ [1; 0] None "1"; mkDocument "b" ∅ [0; 1] None "2"]) 5
         "pix" None (Some 1%Z) false (7/10) [])
  = Ok (map (λ d, {| res_content := doc_content d;
                     res_metadata := doc_metadata d;
                     res_similarity := default 0 (doc_score d);
                     res_id := doc_id d |})
            (take (Z.to_nat (default 5%Z (Some 1%Z)))
               [mkDocument "a" ∅ [1; 0] None "1"; mkDocument "b" ∅ [0; 1] None "2"])).
Proof.
  apply (semantic_search_without_mmr (λ _, Ok [1; 0])
           (λ _, Ok [mkDocument "a" ∅ [1; 0] None "1"; mkDocument "b" ∅ [0; 1] None "2"]) 5
           "pix" None (Some 1%Z) (7/10) [] [1; 0]); [reflexivity | reflexivity | simpl; lia].
Defined.

Lemma semantic_search_mmr_results
    (generate_embedding : string → result Vector)
    (aggregate : Pipeline → result (list Document)) (TOP_K : Z)
    (query : string) (filters : option (gmap string string)) (top_k : option Z)
    (lam : R) (log : list call) (v : Vector) (docs : list Document) :
  generate_embedding query = Ok v →
  aggregate (sent_pipeline v filters (default TOP_K top_k) true) = Ok docs →
  Forall (λ d, length (doc_embedding d) = length v) docs →
  (0 ≤ default TOP_K top_k)%Z →
  ∃ results,
    snd (Facade.semantic_search generate_embedding aggregate TOP_K
           query filters top_k true lam log) = Ok results ∧
    Z.of_nat (length results) = Z.min (default TOP_K top_k) (Z.of_nat (length docs)) ∧
    ∀ r, r ∈ results →
         ∃ d, d ∈ docs ∧ r = Facade.pop_embedding (Facade.to_candidate d).
Proof.
  intros Hv Hd Hdim Hk. rewrite (semantic_search_embedded _ _ _ _ _ _ _ _ _ v Hv).
  cbn zeta. rewrite Hd. cbn [snd mbind result_bind].
  set (k := default TOP_K top_k) in *.
  destruct docs as [|d0 docs'].
  { exists []. simpl. unfold Py.slice_to. apply Z.leb_le in Hk. rewrite Hk.
    rewrite take_nil. repeat split; [lia |]. intros r Hr. by apply elem_of_nil in Hr. }
  set (docs := d0 :: docs') in *.
  assert (Hne : (0 < length docs)%nat) by (simpl; lia). clearbody docs.
  assert (Hcs : same_dim v (map Facade.to_candidate docs)).
  { apply Forall_map. eapply Forall_impl; [exact Hdim | done]. }
  destruct (rerank_spec v lam (map Facade.to_candidate docs) k Hcs)
    as (res & rest & Hres & Hlen & Hperm).
  exists (map Facade.pop_embedding res).
  replace (true && bool_decide (0 < length (map Facade.to_candidate docs))%nat)
    with true by (symmetry; apply bool_decide_eq_true; by rewrite length_map).
  rewrite Hres. simpl. split; [done |]. split.
  - rewrite length_map, Hlen, length_map. unfold Py.range_len. lia.
  - intros r Hr. apply list_elem_of_fmap in Hr as (c & -> & Hc).
    assert (Hin : c ∈ map Facade.to_candidate docs).
    { rewrite <- Hperm. apply elem_of_app. by left. }
    apply list_elem_of_fmap in Hin as (d & -> & Hin). by exists d.
Qed.

(** X16: with MMR, a non-negative [top_k] and index documents whose
    embeddings have the dimension of the query embedding,
    [semantic_search] returns [min(top_k, number of index documents)]
    results, each the public form of one of the index documents. *)
Theorem semantic_search_with_mmr
    (generate_embedding : string → result Vector)
    (aggregate : Pipeline → result (list Document)) (TOP_K : Z)
    (query : string) (filters : option (gmap string string)) (top_k : option Z)
    (lam : R) (log : list call) (v : Vector) (docs : list Document) :
  generate_embedding query = Ok v →
  aggregate (sent_pipeline v filters (default TOP_K top_k) true) = Ok docs →
  Forall (λ d, length (doc_embedding d) = length v) docs →
  (0 ≤ default TOP_K top_k)%Z →
  ∃ results,
    snd (Facade.semantic_search generate_embedding aggregate TOP_K
           query filters top_k true lam log) = Ok results ∧
    Z.of_nat (length results) = Z.min (default TOP_K top_k) (Z.of_nat (length docs)) ∧
    ∀ r, r ∈ results →
         ∃ d, d ∈ docs ∧ r = Facade.pop_embedding (Facade.to_candidate d).
Proof.
  intros Hv Hd Hdim Hk.
  by apply (semantic_search_mmr_results _ _ _ _ _ _ _ _ v).
Qed.

Lemma semantic_search_with_mmr_witness :
  ∃ results,
    snd (Facade.semantic_search (λ _, Ok [1; 0])
           (λ _, Ok [mkDocument "a" ∅ [1; 0] None "1"; mkDocument "b" ∅ [0; 1] None "2"]) 5
           "pix" None (Some 1%Z) true (7/10) []) = Ok results ∧
    Z.of_nat (length results)
    = Z.min (default 5%Z (Some 1%Z))
        (Z.of_nat (length [mkDocument "a" ∅ [1; 0] None "1";
                           mkDocument "b" ∅ [0; 1] None "2"])) ∧
    ∀ r, r ∈ results →
         ∃ d, d ∈ [mkDocument "a" ∅ [1; 0] None "1"; mkDocument "b" ∅ [0; 1] None "2"] ∧
              r = Facade.pop_embedding (Facade.to_candidate d).
Proof.
  apply (semantic_search_with_mmr (λ _, Ok [1; 0])
           (λ _, Ok [mkDocument "a" ∅ [1; 0] None "1"; mkDocument "b" ∅ [0; 1] None "2"]) 5
           "pix" None (Some 1%Z) (7/10) [] [1; 0]);
    [reflexivity | reflexivity | repeat constructor | simpl; lia].
Defined.

(** X17: with MMR and [top_k >= 1], an index document whose embedding has
    not the dimension of the query embedding aborts the whole retrieval:
    [semantic_search] raises a [ValueError] after its two external calls
    and returns no partial result. *)
Theorem semantic_search_dimension_mismatch
    (generate_embedding : string → result Vector)
    (aggregate : Pipeline → result (list Document)) (TOP_K : Z)
    (query : string) (filters : option (gmap string string)) (top_k : option Z)
    (lam : R) (log : list call) (v : Vector) (docs : list Document) :
  generate_embedding query = Ok v →
  aggregate (sent_pipeline v filters (default TOP_K top_k) true) = Ok docs →
  Exists (λ d, length (doc_embedding d) ≠ length v) docs →
  (1 ≤ default TOP_K top_k)%Z →
  ∃ msg,
    Facade.semantic_search generate_embedding aggregate TOP_K
      query filters top_k true lam log
    = (log ++ [GenerateEmbedding query;
               Aggregate (sent_pipeline v filters (default TOP_K top_k) true)],
       Raise (ValueError msg)).
Proof.
  intros Hv Hd Hex Hk. rewrite (semantic_search_embedded _ _ _ _ _ _ _ _ _ v Hv).
  cbn zeta. rewrite Hd. cbn [mbind result_bind].
  assert (Hbad : Exists (λ c, length (embedding c) ≠ length v)
                        (map Facade.to_candidate docs)).
  { apply Exists_fmap. eapply Exists_impl; [exact Hex | done]. }
  pose proof (rerank_bad_dimension v lam _ _ Hk Hbad) as Hraise.
  eexists.
  replace (true && bool_decide (0 < length (map Facade.to_candidate docs))%nat)
    with true.
  - by rewrite Hraise.
  - symmetry. apply bool_decide_eq_true. destruct docs; [by apply Exists_nil in Hex |].
    simpl. lia.
Qed.

Lemma semantic_search_dimension_mismatch_witness :
  ∃ msg,
    Facade.semantic_search (λ _, Ok [1; 0])
      (λ _, Ok [mkDocument "a" ∅ [1; 0; 0] None "1"]) 5
      "pix" None None true (7/10) []
    = ([] ++ [GenerateEmbedding "pix";
              Aggregate (sent_pipeline [1; 0] None (default 5%Z None) true)],
       Raise (ValueError msg)).
Proof.
  apply (semantic_search_dimension_mismatch (λ _, Ok [1; 0])
           (λ _, Ok [mkDocument "a" ∅ [1; 0; 0] None "1"]) 5
           "pix" None None (7/10) [] [1; 0] [mkDocument "a" ∅ [1; 0; 0] None "1"]);
    [reflexivity | reflexivity | | simpl; lia].
  apply Exists_cons_hd. simpl. lia.
Defined.

(** * Properties of the lookups by metadata *)

(** X18: when no chunk carries the ticket identifier,
    [get_ticket_with_provider_docs] answers with the [Ticket not found]
    dictionary after a single [find], on the ticket identifier; no
    provider documentation is looked up. *)
Theorem ticket_not_found
    (find : gmap string string → result (list Document))
    (ticket_id : string) (log : list (gmap string string)) :
  find {["metadata.source_id" := ticket_id]} = Ok [] →
  Lookup.get_ticket_with_provider_docs find ticket_id log
  = (log ++ [{["metadata.source_id" := ticket_id]}],
     Ok (TicketNotFound "Ticket not found")).
Proof.
  intros Hfind.
  unfold Lookup.get_ticket_with_provider_docs, Lookup.get_by_ticket_id,
    Lookup.call_find, mbind, DB_bind, mret, DB_ret.
  by rewrite Hfind.
Qed.

Lemma ticket_not_found_witness :
  Lookup.get_ticket_with_provider_docs (λ _, Ok []) "AP-541" []
  = ([] ++ [{["metadata.source_id" := "AP-541"]}],
     Ok (TicketNotFound "Ticket not found")).
Proof. apply (ticket_not_found (λ _, Ok []) "AP-541" []). reflexivity. Defined.

(** X19: when the ticket has chunks and the metadata of its first chunk
    names a provider, [get_ticket_with_provider_docs] makes a second
    [find], for the documents of that provider whose type is
    [confluence], and returns the ticket identifier, every chunk of the
    ticket, the provider name and those documents. *)
Theorem ticket_with_provider_docs
    (find : gmap string string → result (list Document))
    (ticket_id : string) (log : list (gmap string string))
    (d : Document) (ds pdocs : list Document) (p : string) :
  find {["metadata.source_id" := ticket_id]} = Ok (d :: ds) →
  doc_metadata d !! "provider_name" = Some p → p ≠ "" →
  find (<["metadata.document_type" := "confluence"]>
          {["metadata.provider_name" := p]}) = Ok pdocs →
  Lookup.get_ticket_with_provider_docs find ticket_id log
  = (log ++ [{["metadata.source_id" := ticket_id]};
             <["metadata.document_type" := "confluence"]>
               {["metadata.provider_name" := p]}],
     Ok (TicketFound ticket_id (map Lookup.to_chunk (d :: ds)) (Some p)
                     (map Lookup.to_chunk pdocs))).
Proof.
  intros Hfind Hp Hne Hdocs.
  unfold Lookup.get_ticket_with_provider_docs, Lookup.get_by_ticket_id,
    Lookup.get_by_provider, Lookup.call_find, mbind, DB_bind, mret, DB_ret.
  rewrite Hfind. simpl. rewrite Hp.
  rewrite decide_False by done.
  rewrite Hdocs. by rewrite <- app_assoc.
Qed.

Lemma ticket_with_provider_docs_witness :
  Lookup.get_ticket_with_provider_docs
    (λ f, if decide (f = {["metadata.source_id" := "AP-541"]})
          then Ok [mkDocument "chunk" {["provider_name" := "SafetyPay"]} [] None "1"]
          else Ok [])
    "AP-541" []
  = ([] ++ [{["metadata.source_id" := "AP-541"]};
            <["metadata.document_type" := "confluence"]>
              {["metadata.provider_name" := "SafetyPay"]}],
     Ok (TicketFound "AP-541"
           (map Lookup.to_chunk
              (mkDocument "chunk" {["provider_name" := "SafetyPay"]} [] None "1" :: []))
           (Some "SafetyPay") (map Lookup.to_chunk []))).
Proof.
  apply (ticket_with_provider_docs _ "AP-541" []
           (mkDocument "chunk" {["provider_name" := "SafetyPay"]} [] None "1") [] []
           "SafetyPay"); try done.
Defined.

(** X20: when the ticket has chunks and the metadata of its first chunk
    names no provider (no [provider_name], or an empty one),
    [get_ticket_with_provider_docs] makes no second [find] and returns the
    chunks of the ticket with no provider documentation. *)
Theorem ticket_without_provider
    (find : gmap string string → result (list Document))
    (ticket_id : string) (log : list (gmap string string))
    (d : Document) (ds : list Document) :
  find {["metadata.source_id" := ticket_id]} = Ok (d :: ds) →
  doc_metadata d !! "provider_name" = None ∨
  doc_metadata d !! "provider_name" = Some "" →
  Lookup.get_ticket_with_provider_docs find ticket_id log
  = (log ++ [{["metadata.source_id" := ticket_id]}],
     Ok (TicketFound ticket_id (map Lookup.to_chunk (d :: ds))
                     (doc_metadata d !! "provider_name") [])).
Proof.
  intros Hfind Hp.
  unfold Lookup.get_ticket_with_provider_docs, Lookup.get_by_ticket_id,
    Lookup.call_find, mbind, DB_bind, mret, DB_ret.
  rewrite Hfind. simpl. by destruct Hp as [-> | ->].
Qed.

Lemma ticket_without_provider_witness :
  Lookup.get_ticket_with_provider_docs
    (λ _, Ok [mkDocument "chunk" ∅ [] None "1"]) "AP-541" []
  = ([] ++ [{["metadata.source_id" := "AP-541"]}],
     Ok (TicketFound "AP-541"
           (map Lookup.to_chunk (mkDocument "chunk" ∅ [] None "1" :: []))
           (doc_metadata (mkDocument "chunk" ∅ [] None "1") !! "provider_name") [])).
Proof.
  apply (ticket_without_provider (λ _, Ok [mkDocument "chunk" ∅ [] None "1"])
           "AP-541" [] (mkDocument "chunk" ∅ [] None "1") []); [reflexivity |].
  left. reflexivity.
Defined.

(** X21: a failure of the database is never hidden by
    [get_ticket_with_provider_docs]: an exception of the first [find] is
    raised after that one call, and an exception of the provider [find] is
    raised after the two calls; no dictionary is returned. *)
Theorem ticket_lookup_failure_propagates
    (find : gmap string string → result (list Document))
    (ticket_id : string) (log : list (gmap string string)) (e : exn) :
  (find {["metadata.source_id" := ticket_id]} = Raise e →
   Lookup.get_ticket_with_provider_docs find ticket_id log
   = (log ++ [{["metadata.source_id" := ticket_id]}], Raise e)) ∧
  (∀ d ds p,
     find {["metadata.source_id" := ticket_id]} = Ok (d :: ds) →
     doc_metadata d !! "provider_name" = Some p → p ≠ "" →
     find (<["metadata.document_type" := "confluence"]>
             {["metadata.provider_name" := p]}) = Raise e →
     Lookup.get_ticket_with_provider_docs find ticket_id log
     = (log ++ [{["metadata.source_id" := ticket_id]};
                <["metadata.document_type" := "confluence"]>
                  {["metadata.provider_name" := p]}], Raise e)).
Proof.
  unfold Lookup.get_ticket_with_provider_docs, Lookup.get_by_ticket_id,
    Lookup.get_by_provider, Lookup.call_find, mbind, DB_bind, mret, DB_ret.
  split.
  - intros Hfind. by rewrite Hfind.
  - intros d ds p Hfind Hp Hne Hdocs. rewrite Hfind. simpl. rewrite Hp.
    rewrite decide_False by done.
    rewrite Hdocs. by rewrite <- app_assoc.
Qed.

Lemma ticket_lookup_failure_propagates_witness :
  Lookup.get_ticket_with_provider_docs
    (λ _, Raise (ExternalError "database" "unavailable")) "AP-541" []
  = ([] ++ [{["metadata.source_id" := "AP-541"]}],
     Raise (ExternalError "database" "unavailable")).
Proof.
  apply (ticket_lookup_failure_propagates
           (λ _, Raise (ExternalError "database" "unavailable")) "AP-541" []).
  reflexivity.
Defined.

Section ProviderSet.
Lemma add_provider_fold (results : list SearchResult) : ∀ acc : gset string,
  (∀ p, p ∈ foldl Capability.add_provider acc results ↔
        p ∈ acc ∨ (p ≠ "" ∧ ∃ r, r ∈ results ∧
                                res_metadata r !! "provider_name" = Some p)) ∧
  (size (foldl Capability.add_provider acc results) ≤ size acc + length results)%nat.
Proof.
  induction results as [|r results IH]; intros acc; simpl.
  - split; [| lia]. intros p. split; [by left |].
    intros [? | (_ & r & Hr & _)]; [done | by apply elem_of_nil in Hr].
  - destruct (IH (Capability.add_provider acc r)) as [Hmem Hsize]. split.
    + intros p. rewrite Hmem. unfold Capability.add_provider.
      destruct (res_metadata r !! "provider_name") as [p0|] eqn:Hp0.
      * destruct (decide (p0 = "")) as [-> | Hne].
        -- split.
           ++ intros [? | (Hp & r' & Hr' & Hm)]; [by left |].
              right. split; [done |]. exists r'. split; [by apply elem_of_cons; right | done].
           ++ intros [? | (Hp & r' & Hr' & Hm)]; [by left |].
              apply elem_of_cons in Hr' as [-> | Hr']; [congruence |].
              right. split; [done |]. by exists r'.
        -- rewrite elem_of_union, elem_of_singleton. split.
           ++ intros [[? | ->] | (Hp & r' & Hr' & Hm)]; [by left | |].
              ** right. split; [done |]. exists r. split; [by apply elem_of_cons; left | done].
              ** right. split; [done |]. exists r'. split; [by apply elem_of_cons; right | done].
           ++ intros [? | (Hp & r' & Hr' & Hm)]; [by left; left |].
              apply elem_of_cons in Hr' as [-> | Hr'].
              ** left. right. congruence.
              ** right. split; [done |]. by exists r'.
      * split.
        -- intros [? | (Hp & r' & Hr' & Hm)]; [by left |].
           right. split; [done |]. exists r'. split; [by apply elem_of_cons; right | done].
        -- intros [? | (Hp & r' & Hr' & Hm)]; [by left |].
           apply elem_of_cons in Hr' as [-> | Hr']; [congruence |].
           right. split; [done |]. by exists r'.
    + assert (Hstep : (size (Capability.add_provider acc r) ≤ S (size acc))%nat).
      { unfold Capability.add_provider.
        destruct (res_metadata r !! "provider_name") as [p0|]; [| lia].
        destruct (decide (p0 = "")); [lia |].
        rewrite size_union_alt.
        assert (size ({[p0]} ∖ acc : gset string) ≤ 1)%nat; [| lia].
        rewrite <- (size_singleton (C:=gset string) p0).
        apply subseteq_size. intros x Hx. by apply elem_of_difference in Hx as [? _]. }
      lia.
Qed.
End ProviderSet.

(** X22: [get_providers_with_capability] searches with MMR for the
    capability among [confluence] documents with [top_k = 20].  When the
    index documents have the dimension of the query embedding, it returns
    at most 20 provider names, none of them empty, each being the
    [provider_name] of one of the index documents. *)
Theorem providers_with_capability
    (generate_embedding : string → result Vector)
    (aggregate : Pipeline → result (list Document)) (TOP_K : Z)
    (capability : string) (log : list call) (v : Vector) (docs : list Document) :
  generate_embedding capability = Ok v →
  aggregate (sent_pipeline v (Some {["metadata.document_type" := "confluence"]})
               20 true) = Ok docs →
  Forall (λ d, length (doc_embedding d) = length v) docs →
  ∃ providers,
    snd (Capability.get_providers_with_capability generate_embedding aggregate TOP_K
           capability log) = Ok providers ∧
    (size providers ≤ 20)%nat ∧
    ∀ p, p ∈ providers →
         p ≠ "" ∧ ∃ d, d ∈ docs ∧ doc_metadata d !! "provider_name" = Some p.
Proof.
  intros Hv Hd Hdim.
  destruct (semantic_search_mmr_results generate_embedding aggregate TOP_K capability
              (Some {["metadata.document_type" := "confluence"]}) (Some 20%Z)
              (7/10) log v docs Hv Hd Hdim) as (results & Hres & Hlen & Hfrom);
    [simpl; lia |].
  exists (foldl Capability.add_provider ∅ results).
  unfold Capability.get_providers_with_capability, mbind, IO_bind, mret, IO_ret.
  destruct (Facade.semantic_search _ _ _ _ _ _ _ _ _) as [log' r].
  simpl in Hres. subst r. simpl. split; [done |].
  destruct (add_provider_fold results ∅) as [Hmem Hsize].
  split.
  - rewrite size_empty in Hsize. simpl in Hlen. lia.
  - intros p Hp. apply Hmem in Hp as [Hp | (Hne & r & Hr & Hm)];
      [by apply not_elem_of_empty in Hp |].
    split; [done |]. destruct (Hfrom r Hr) as (d & Hd' & ->). by exists d.
Qed.

Lemma providers_with_capability_witness :
  ∃ providers,
    snd (Capability.get_providers_with_capability (λ _, Ok [1; 0])
           (λ _, Ok [mkDocument "a" {["provider_name" := "SafetyPay"]} [1; 0] None "1"]) 5
           "PIX" []) = Ok providers ∧
    (size providers ≤ 20)%nat ∧
    ∀ p, p ∈ providers →
         p ≠ "" ∧
         ∃ d, d ∈ [mkDocument "a" {["provider_name" := "SafetyPay"]} [1; 0] None "1"] ∧
              doc_metadata d !! "provider_name" = Some p.
Proof.
  apply (providers_with_capability (λ _, Ok [1; 0])
           (λ _, Ok [mkDocument "a" {["provider_name" := "SafetyPay"]} [1; 0] None "1"]) 5
           "PIX" [] [1; 0]); [reflexivity | reflexivity | repeat constructor].
Defined.

(** * Properties of [_extract_sources] *)

Section ExtractSources.

Lemma extract_fold (docs : list SearchResult) : ∀ src (seen : gset string),
  (∀ sid, sid ∈ seen ↔ sid ∈ map source_id src) →
  NoDup (map source_id src) →
  ∃ new,
    fst (foldl Generator.extract_step (src, seen) docs) = src ++ new ∧
    (∀ sid, sid ∈ snd (foldl Generator.extract_step (src, seen) docs) ↔
            sid ∈ map source_id (src ++ new)) ∧
    NoDup (map source_id (src ++ new)) ∧
    ∀ s, s ∈ new →
         source_id s ≠ "" ∧ (source_id s ∉ seen) ∧
         ∃ l1 d l2,
           docs = l1 ++ d :: l2 ∧
           res_metadata d !! "source_id" = Some (source_id s) ∧
           Forall (λ d', res_metadata d' !! "source_id" ≠ Some (source_id s)) l1 ∧
           s = source_of d (source_id s).
Proof.
  induction docs as [|d0 docs IH]; intros src seen Hseen Hnd.
  - exists []. simpl. rewrite app_nil_r. split; [done |]. split; [done |].
    split; [done |]. intros s Hs. by apply elem_of_nil in Hs.
  - simpl. unfold Generator.extract_step at 2 4. simpl.
    destruct (res_metadata d0 !! "source_id") as [sid0|] eqn:Hid0.
    + destruct (decide (sid0 ≠ "" ∧ sid0 ∉ seen)) as [[Hne Hfresh] | Hold].
      * destruct (IH (src ++ [source_of d0 sid0]) (seen ∪ {[sid0]}))
          as (new & Hfold & Hseen' & Hnd' & Hnew).
        { intros sid. rewrite elem_of_union, elem_of_singleton, map_app, elem_of_app, Hseen.
          simpl. rewrite list_elem_of_singleton. done. }
        { rewrite map_app. apply NoDup_app. repeat split; [done | | apply NoDup_singleton].
          intros sid Hin Hin'. simpl in Hin'. apply list_elem_of_singleton in Hin' as ->.
          by apply Hfresh, Hseen. }
        exists (source_of d0 sid0 :: new).
        unfold source_of in *. rewrite Hfold, <- app_assoc. simpl.
        split; [done |]. split; [by rewrite <- app_assoc in Hseen' |].
        split; [by rewrite <- app_assoc in Hnd' |].
        intros s Hs. apply elem_of_cons in Hs as [-> | Hs]; simpl.
        -- repeat split; [done | done |]. exists [], d0, docs. by repeat split.
        -- destruct (Hnew s Hs) as (Hs1 & Hs2 & l1 & d & l2 & -> & Hd & Hl1 & Heq).
           apply not_elem_of_union in Hs2 as [Hs2 Hs3].
           apply not_elem_of_singleton in Hs3.
           repeat split; [done | done |].
           exists (d0 :: l1), d, l2. repeat split; [done | | done].
           constructor; [congruence | done].
      * destruct (IH src seen Hseen Hnd) as (new & Hfold & Hseen' & Hnd' & Hnew).
        exists new. split; [done |]. split; [done |]. split; [done |].
        intros s Hs. destruct (Hnew s Hs) as (Hs1 & Hs2 & l1 & d & l2 & -> & Hd & Hl1 & Heq).
        repeat split; [done | done |].
        exists (d0 :: l1), d, l2. repeat split; [done | | done].
        constructor; [| done]. rewrite Hid0. intros [= ->].
        apply Hold. by split.
    + destruct (IH src seen Hseen Hnd) as (new & Hfold & Hseen' & Hnd' & Hnew).
      exists new. split; [done |]. split; [done |]. split; [done |].
      intros s Hs. destruct (Hnew s Hs) as (Hs1 & Hs2 & l1 & d & l2 & -> & Hd & Hl1 & Heq).
      repeat split; [done | done |].
      exists (d0 :: l1), d, l2. repeat split; [done | | done].
      constructor; [by rewrite Hid0 | done].
Qed.

(** Every non-empty identifier met in the documents ends up listed. *)
Lemma extract_fold_complete (docs : list SearchResult) : ∀ src (seen : gset string) sid d,
  (∀ sid, sid ∈ seen ↔ sid ∈ map source_id src) →
  NoDup (map source_id src) →
  sid ≠ "" → d ∈ docs → res_metadata d !! "source_id" = Some sid →
  sid ∈ map source_id (fst (foldl Generator.extract_step (src, seen) docs)).
Proof.
  induction docs as [|d0 docs IH]; intros src seen sid d Hseen Hnd Hne Hd Hid.
  { by apply elem_of_nil in Hd. }
  simpl. apply elem_of_cons in Hd as [<- | Hd].
  - unfold Generator.extract_step at 2. simpl. rewrite Hid.
    destruct (decide (sid ≠ "" ∧ sid ∉ seen)) as [[_ Hfresh] | Hold].
    + destruct (extract_fold docs (src ++ [source_of d sid]) (seen ∪ {[sid]}))
        as (new & Hfold & _).
      { intros s. rewrite elem_of_union, elem_of_singleton, map_app, elem_of_app, Hseen.
        simpl. rewrite list_elem_of_singleton. done. }
      { rewrite map_app. apply NoDup_app. repeat split; [done | | apply NoDup_singleton].
        intros s Hin Hin'. simpl in Hin'. apply list_elem_of_singleton in Hin' as ->.
        by apply Hfresh, Hseen. }
      unfold source_of in Hfold. rewrite Hfold, !map_app. simpl.
      apply elem_of_app. left. apply elem_of_app. right. by apply list_elem_of_singleton.
    + destruct (extract_fold docs src seen Hseen Hnd) as (new & Hfold & _).
      rewrite Hfold, map_app. apply elem_of_app. left. apply Hseen.
      destruct (decide (sid ∈ seen)); [done |]. exfalso. apply Hold. by split.
  - unfold Generator.extract_step at 2. simpl.
    destruct (res_metadata d0 !! "source_id") as [sid0|] eqn:Hid0;
      [| by apply (IH src seen sid d)].
    destruct (decide (sid0 ≠ "" ∧ sid0 ∉ seen)) as [[Hne0 Hfresh] | Hold];
      [| by apply (IH src seen sid d)].
    apply (IH _ _ sid d); try done.
    + intros s. rewrite elem_of_union, elem_of_singleton, map_app, elem_of_app, Hseen.
      simpl. rewrite list_elem_of_singleton. done.
    + rewrite map_app. apply NoDup_app. repeat split; [done | | apply NoDup_singleton].
      intros s Hin Hin'. simpl in Hin'. apply list_elem_of_singleton in Hin' as ->.
      by apply Hfresh, Hseen.
Qed.
End ExtractSources.

(** X23: the sources listed by [_extract_sources] have pairwise distinct
    identifiers, none of them empty. *)
Theorem extract_sources_distinct (context_docs : list SearchResult) :
  NoDup (map source_id (Generator._extract_sources context_docs)) ∧
  "" ∉ map source_id (Generator._extract_sources context_docs).
Proof.
  unfold Generator._extract_sources.
  destruct (extract_fold context_docs [] ∅) as (new & Hfold & _ & Hnd & Hnew).
  { intros sid. simpl. split; intros H; [by apply not_elem_of_empty in H | by apply elem_of_nil in H]. }
  { constructor. }
  rewrite Hfold. split; [done |]. simpl.
  intros Hin. apply list_elem_of_fmap in Hin as (s & Hs & Hin).
  destruct (Hnew s Hin) as (Hne & _). congruence.
Qed.

(** X24: an identifier is listed by [_extract_sources] exactly when it is
    not empty and is the [source_id] of one of the documents. *)
Theorem extract_sources_ids (context_docs : list SearchResult) (sid : string) :
  sid ∈ map source_id (Generator._extract_sources context_docs) ↔
  sid ≠ "" ∧ ∃ d, d ∈ context_docs ∧ res_metadata d !! "source_id" = Some sid.
Proof.
  unfold Generator._extract_sources. split.
  - destruct (extract_fold context_docs [] ∅) as (new & Hfold & _ & _ & Hnew).
    { intros s. simpl. split; intros H; [by apply not_elem_of_empty in H | by apply elem_of_nil in H]. }
    { constructor. }
    rewrite Hfold. simpl. intros Hin.
    apply list_elem_of_fmap in Hin as (s & -> & Hin).
    destruct (Hnew s Hin) as (Hne & _ & l1 & d & l2 & -> & Hd & _).
    split; [done |]. exists d. split; [| done].
    apply elem_of_app. right. apply elem_of_cons. by left.
  - intros (Hne & d & Hd & Hid).
    apply (extract_fold_complete context_docs [] ∅ sid d); try done.
    + intros s. simpl. split; intros H; [by apply not_elem_of_empty in H | by apply elem_of_nil in H].
    + constructor.
Qed.

(** X25: every listed source is described by the first document that
    carries its identifier: its type, provider and file are the
    [document_type], [provider_name] and [source_file] of that document. *)
Theorem extract_sources_first_occurrence (context_docs : list SearchResult) (s : Source) :
  s ∈ Generator._extract_sources context_docs →
  ∃ l1 d l2,
    context_docs = l1 ++ d :: l2 ∧
    res_metadata d !! "source_id" = Some (source_id s) ∧
    Forall (λ d', res_metadata d' !! "source_id" ≠ Some (source_id s)) l1 ∧
    source_type s = res_metadata d !! "document_type" ∧
    source_provider s = res_metadata d !! "provider_name" ∧
    source_file s = res_metadata d !! "source_file".
Proof.
  unfold Generator._extract_sources.
  destruct (extract_fold context_docs [] ∅) as (new & Hfold & _ & _ & Hnew).
  { intros sid. simpl. split; intros H; [by apply not_elem_of_empty in H | by apply elem_of_nil in H]. }
  { constructor. }
  rewrite Hfold. simpl. intros Hs.
  destruct (Hnew s Hs) as (_ & _ & l1 & d & l2 & Hdocs & Hd & Hl1 & Heq).
  exists l1, d, l2. rewrite Heq. by repeat split.
Qed.

Lemma extract_sources_first_occurrence_witness :
  ∃ l1 d l2,
    [mkSearchResult "text" {["source_id" := "AP-541"]} 1 "1"] = l1 ++ d :: l2 ∧
    res_metadata d !! "source_id"
    = Some (source_id (mkSource "AP-541" None None None)) ∧
    Forall (λ d', res_metadata d' !! "source_id"
                  ≠ Some (source_id (mkSource "AP-541" None None None))) l1 ∧
    source_type (mkSource "AP-541" None None None) = res_metadata d !! "document_type" ∧
    source_provider (mkSource "AP-541" None None None) = res_metadata d !! "provider_name" ∧
    source_file (mkSource "AP-541" None None None) = res_metadata d !! "source_file".
Proof.
  apply (extract_sources_first_occurrence
           [mkSearchResult "text" {["source_id" := "AP-541"]} 1 "1"]
           (mkSource "AP-541" None None None)).
  vm_compute. apply list_elem_of_here.
Defined.

(** X26: the list only grows with the context: the sources of a context
    are a prefix of the sources of any longer context that starts with
    it. *)
Theorem extract_sources_prefix (docs1 docs2 : list SearchResult) :
  ∃ new, Generator._extract_sources (docs1 ++ docs2)
         = Generator._extract_sources docs1 ++ new.
Proof.
  unfold Generator._extract_sources. rewrite foldl_app.
  destruct (extract_fold docs1 [] ∅) as (new1 & Hfold1 & Hseen1 & Hnd1 & _).
  { intros sid. simpl. split; intros H; [by apply not_elem_of_empty in H | by apply elem_of_nil in H]. }
  { constructor. }
  destruct (foldl Generator.extract_step ([], ∅) docs1) as [src1 seen1].
  simpl in Hfold1, Hseen1. subst src1.
  destruct (extract_fold docs2 new1 seen1 Hseen1 Hnd1) as (new2 & Hfold2 & _).
  exists new2. by rewrite Hfold2.
Qed.

Section TeamCounts.
Lemma add_team_fold (rows : list (option string * Z)) : ∀ (acc : gmap string Z) k,
  NoDup (map fst rows) →
  (∀ n, (Some k, n) ∈ rows → acc !! k = None) →
  ∀ n, foldl Analytics.add_team acc rows !! k = Some n ↔
       acc !! k = Some n ∨ (k ≠ "" ∧ (Some k, n) ∈ rows).
Proof.
  induction rows as [|[id c] rows IH]; intros acc k Hnd Hfresh n; simpl.
  - split; [by left |]. intros [? | [_ H]]; [done | by apply elem_of_nil in H].
  - simpl in Hnd. apply NoDup_cons in Hnd as [Hid Hnd].
    rewrite IH; [| done |].
    + unfold Analytics.add_team. simpl.
      destruct id as [team|].
      * destruct (decide (team = "")) as [Hemp | Hne].
        -- subst team.
           split; (intros [? | [Hk Hin]]; [by left | right; split; [done |]]).
           ++ by apply elem_of_cons; right.
           ++ apply elem_of_cons in Hin as [[= ? ?] | Hin]; [congruence | done].
        -- destruct (decide (team = k)) as [-> | Hkt].
           ++ rewrite lookup_insert_eq. split.
              ** intros [[= ->] | [Hk Hin]].
                 --- right. split; [done |]. apply elem_of_cons. by left.
                 --- right. split; [done |]. apply elem_of_cons. by right.
              ** intros [Hacc | [Hk Hin]].
                 --- rewrite (Hfresh c) in Hacc; [done |]. apply elem_of_cons. by left.
                 --- apply elem_of_cons in Hin as [[= <-] | Hin]; [by left |].
                     exfalso. apply Hid. apply list_elem_of_fmap. by exists (Some k, n).
           ++ rewrite lookup_insert_ne by done.
              split; (intros [? | [Hk Hin]]; [by left | right; split; [done |]]).
              ** by apply elem_of_cons; right.
              ** apply elem_of_cons in Hin as [[= ? ?] | Hin]; [congruence | done].
      * split; (intros [? | [Hk Hin]]; [by left | right; split; [done |]]).
        -- by apply elem_of_cons; right.
        -- apply elem_of_cons in Hin as [[=] | Hin]; done.
    + intros n' Hin. unfold Analytics.add_team. simpl.
      destruct id as [team|].
      * destruct (decide (team = "")).
        -- apply (Hfresh n'). by apply elem_of_cons; right.
        -- destruct (decide (team = k)) as [-> | Hkt].
           ++ exfalso. apply Hid. apply list_elem_of_fmap. by exists (Some k, n').
           ++ rewrite lookup_insert_ne by done. apply (Hfresh n'). by apply elem_of_cons; right.
      * apply (Hfresh n'). by apply elem_of_cons; right.
Qed.
End TeamCounts.

(** X27: [count_by_team] asks for the [jira] documents grouped by team
    and reports a count for exactly the groups whose team is a non-empty
    name: when the database returns one row per group, a team [k] has
    count [n] in the answer if and only if [k] is not empty and the row
    of [k] has count [n]; the group of the tickets without a team is left
    out. *)
Theorem count_by_team_rows
    (aggregate_counts : list stage → result (list (option string * Z)))
    (rows : list (option string * Z)) :
  aggregate_counts [MatchStage {["metadata.document_type" := "jira"]};
                    GroupCountStage "$metadata.team"] = Ok rows →
  NoDup (map fst rows) →
  ∃ counts,
    Analytics.count_by_team aggregate_counts = Ok counts ∧
    ∀ k n, counts !! k = Some n ↔ k ≠ "" ∧ (Some k, n) ∈ rows.
Proof.
  intros Hrows Hnd. exists (foldl Analytics.add_team ∅ rows).
  unfold Analytics.count_by_team. rewrite Hrows. split; [done |].
  intros k n. rewrite add_team_fold; [| done | by intros; apply lookup_empty].
  rewrite lookup_empty. split; [by intros [? | ?] | by right].
Qed.

Lemma count_by_team_rows_witness :
  ∃ counts,
    Analytics.count_by_team
      (λ _, Ok [(Some "Integrations", 3%Z); (None, 2%Z); (Some "Core", 1%Z)])
    = Ok counts ∧
    ∀ k n, counts !! k = Some n ↔
           k ≠ "" ∧
           (Some k, n) ∈ [(Some "Integrations", 3%Z); (None, 2%Z); (Some "Core", 1%Z)].
Proof.
  apply (count_by_team_rows
           (λ _, Ok [(Some "Integrations", 3%Z); (None, 2%Z); (Some "Core", 1%Z)]));
    [reflexivity |].
  simpl.
  repeat (apply NoDup_cons; split;
          [intros Hin;
           repeat (apply elem_of_cons in Hin as [Hin | Hin]; [discriminate Hin |]);
           by apply elem_of_nil in Hin |]).
  apply NoDup_nil_2.
Defined.

Section Ties.
Variables (q : Vector) (lam : R).

Lemma mmr_score_same_embedding sel d d' :
  embedding d = embedding d' → mmr_score q lam sel d = mmr_score q lam sel d'.
Proof. intros He. unfold mmr_score, penalty. by rewrite He. Qed.

(** When all documents share one embedding every round is a tie, and the
    loop takes the documents in their order. *)
Lemma mmr_loop_identical (e : Vector) n :
  length e = length q →
  ∀ sel rem,
  Forall (λ c, embedding c = e) sel → Forall (λ c, embedding c = e) rem →
  ∃ iters,
    Retriever.mmr_loop q lam n {| selected := sel; remaining := rem |}
    = Ok (iters, {| selected := sel ++ take n rem; remaining := drop n rem |}).
Proof.
  intros He. induction n as [|n IH]; intros sel rem Hsel Hrem.
  - exists 0%nat. simpl. by rewrite app_nil_r.
  - destruct rem as [|c rem0].
    + exists 0%nat. simpl. by rewrite app_nil_r.
    + assert (Hdim : ∀ l, Forall (λ c, embedding c = e) l → same_dim q l).
      { intros l Hl. unfold same_dim. eapply Forall_impl; [exact Hl |].
        simpl. intros d Hd. by rewrite Hd. }
      destruct (mmr_round_split q lam sel (c :: rem0))
        as (l1 & best & l2 & Heq & Hfm & Hround); [by apply Hdim | by apply Hdim | done |].
      assert (Hfm' : first_max (mmr_score q lam sel) [] c rem0).
      { apply Forall_cons in Hrem as [Hc Hrem0].
        split; [constructor |]. eapply Forall_impl; [exact Hrem0 |]. simpl.
        intros d Hd. rewrite (mmr_score_same_embedding sel d c) by congruence. lra. }
      destruct (first_max_unique _ [] c rem0 l1 best l2 Heq Hfm' Hfm) as (<- & <- & <-).
      apply Forall_cons in Hrem as [Hc Hrem0].
      destruct (IH (sel ++ [c]) rem0) as [iters Hloop].
      { apply Forall_app. split; [done |]. by constructor. }
      { done. }
      exists (S iters). cbn [Retriever.mmr_loop remaining]. rewrite Hround. simpl.
      rewrite Hloop. simpl. by rewrite <- app_assoc.
Qed.

End Ties.

(** X28: on a pool whose documents all carry one embedding (of the
    dimension of the query) every round is a tie, and for every
    [lambda_param] and non-negative [top_k] the result is the first [top_k]
    documents of the pool in their input order. *)
Theorem rerank_identical_embeddings
    (q : Vector) (lam : R) (e : Vector) (cs : list Candidate) (top_k : Z) :
  length e = length q → Forall (λ c, embedding c = e) cs → (0 ≤ top_k)%Z →
  Retriever._mmr_rerank q lam cs top_k = Ok (take (Z.to_nat top_k) cs).
Proof.
  intros He Hcs Hk. destruct cs as [|c cs']; [by rewrite take_nil |].
  unfold Retriever._mmr_rerank, Retriever.mmr_run.
  set (n := Py.range_len _).
  destruct (mmr_loop_identical q lam e n He [] (c :: cs')) as [iters Hloop];
    [constructor | done |].
  rewrite Hloop. simpl. f_equal.
  destruct (decide (top_k ≤ Z.of_nat (length (c :: cs')))%Z) as [Hle | Hgt].
  - unfold n, Py.range_len. by rewrite Z.min_l.
  - assert (Hn : n = length (c :: cs')) by (unfold n, Py.range_len; lia).
    rewrite Hn, !take_ge; [done | lia | lia].
Qed.

Lemma rerank_identical_embeddings_witness :
  Retriever._mmr_rerank [1; 0] (7/10) [doc "A" [0; 1] 1; doc "B" [0; 1] 0] 1
  = Ok (take (Z.to_nat 1) [doc "A" [0; 1] 1; doc "B" [0; 1] 0]).
Proof.
  apply (rerank_identical_embeddings [1; 0] (7/10) [0; 1]);
    [reflexivity | repeat constructor | lia].
Defined.

